(** * Shopping feed attribute scraper: a verification development

    A shallow embedding of [app.py] (class [FeedAttributeScraper] and the
    processing loop of [main]) together with the properties stated in the
    specification.

    Modelling scope.
    - Text is 8-bit: a character is an [ascii]; codes below 128 are ASCII,
      the others are opaque symbols (no case, neither blank nor word
      character).  Python's [str] methods and [re] classes are modelled on
      that alphabet.
    - The libraries the program calls are its environment: the network
      ([requests]), the HTML parser ([bs4]), the XML parser
      ([xml.etree.ElementTree]).  A fetched page is the document the HTML
      parser hands back ([Soup]); a parsed feed is an [Element] tree.
    - [re.search] is a backtracking matcher with Python's priorities
      (leftmost start, alternatives left to right, greedy repetition
      longest first, lazy repetition shortest first). *)

From Stdlib Require Import Ascii String List Bool NArith ZArith Lia Permutation
  DecimalString.
From stdpp Require Import gmap strings list fin_maps.

Set Warnings "-clear-no-such-hyp".

Import ListNotations.
Local Open Scope string_scope.
Local Open Scope list_scope.

(** ** Characters and Python string methods *)

Module Str.

Definition code (c : ascii) : N := N_of_ascii c.

Definition in_range (lo hi : N) (c : ascii) : bool :=
  (N.leb lo (code c)) && (N.leb (code c) hi).

Definition is_upper (c : ascii) : bool := in_range 65 90 c.
Definition is_lower (c : ascii) : bool := in_range 97 122 c.
Definition is_digit (c : ascii) : bool := in_range 48 57 c.
Definition is_alpha (c : ascii) : bool := is_upper c || is_lower c.

(** [\w] *)
Definition is_word (c : ascii) : bool :=
  is_alpha c || is_digit c || N.eqb (code c) 95.

(** [str.isspace] on one character, which is also [\s]. *)
Definition is_space (c : ascii) : bool :=
  in_range 9 13 c || in_range 28 32 c.

Definition to_lower (c : ascii) : ascii :=
  if is_upper c then ascii_of_N (code c + 32) else c.

Definition to_upper (c : ascii) : ascii :=
  if is_lower c then ascii_of_N (code c - 32) else c.

Definition chars (s : string) : list ascii := list_ascii_of_string s.
Definition of_chars (l : list ascii) : string := string_of_list_ascii l.

(** [s.lower()] *)
Definition lower (s : string) : string := of_chars (map to_lower (chars s)).

(** [s.capitalize()] *)
Definition capitalize (s : string) : string :=
  match chars s with
  | [] => ""
  | c :: l => of_chars (to_upper c :: map to_lower l)
  end.

Fixpoint lstrip_chars (l : list ascii) : list ascii :=
  match l with
  | c :: l' => if is_space c then lstrip_chars l' else l
  | [] => []
  end.

Definition strip_chars (l : list ascii) : list ascii :=
  rev (lstrip_chars (rev (lstrip_chars l))).

(** [s.strip()] *)
Definition strip (s : string) : string := of_chars (strip_chars (chars s)).

Fixpoint starts_with_chars (p l : list ascii) : bool :=
  match p, l with
  | [], _ => true
  | a :: p', b :: l' => Ascii.eqb a b && starts_with_chars p' l'
  | _ :: _, [] => false
  end.

(** [s.startswith(p)] *)
Definition startswith (s p : string) : bool :=
  starts_with_chars (chars p) (chars s).

Fixpoint contains_chars (p l : list ascii) : bool :=
  starts_with_chars p l ||
  match l with
  | [] => false
  | _ :: l' => contains_chars p l'
  end.

(** [p in s] *)
Definition contains (p s : string) : bool := contains_chars (chars p) (chars s).

(** Truth value of a string in a condition: the empty string is false. *)
Definition truthy (s : string) : bool :=
  match s with
  | EmptyString => false
  | String _ _ => true
  end.

(** [sep.join(l)] *)
Fixpoint join (sep : string) (l : list string) : string :=
  match l with
  | [] => ""
  | [x] => x
  | x :: l' => x +:+ sep +:+ join sep l'
  end.

(** [s[lo:hi]] for non-negative bounds. *)
Definition slice (lo hi : nat) (s : string) : string :=
  of_chars (firstn (hi - lo) (skipn lo (chars s))).

End Str.

(** ** Regular expressions: the fragment of [re] the program uses *)

Module Re.
Import Str.

(** An item of a bracketed class. *)
Inductive citem :=
| CChar (c : ascii)
| CRange (lo hi : ascii)
| CSpace
| CDigit.

(** What consumes exactly one character. *)
Inductive atom :=
| Lit (c : ascii)
| Class (items : list citem)
| AnyChar.

(** Every repetition in the program's patterns is over one character. *)
Inductive regex :=
| Eps
| Atom (a : atom)
| Seq (r1 r2 : regex)
| Alt (r1 r2 : regex)
| Opt (r : regex)
| Star (a : atom)
| Plus (a : atom)
| StarLazy (a : atom)
| Group (n : nat) (r : regex)
| Bol
| Eol
| WordB.

Definition item_match (c : ascii) (i : citem) : bool :=
  match i with
  | CChar x => Ascii.eqb c x
  | CRange lo hi => in_range (code lo) (code hi) c
  | CSpace => is_space c
  | CDigit => is_digit c
  end.

(** [ic] is the flag [re.IGNORECASE]. *)
Definition atom_match (ic : bool) (a : atom) (c : ascii) : bool :=
  match a with
  | Lit x => if ic then Ascii.eqb (to_lower c) (to_lower x) else Ascii.eqb c x
  | Class items =>
      existsb (item_match c) items ||
      (ic && (existsb (item_match (to_lower c)) items ||
              existsb (item_match (to_upper c)) items))
  | AnyChar => negb (N.eqb (code c) 10)
  end.

(** The matcher's position: the character before it, its offset, the text
    still to read, and the groups closed so far (latest first). *)
Record cursor := Cursor {
  before : option ascii;
  pos : nat;
  rest : list ascii;
  caps : list (nat * list ascii)
}.

Definition word_opt (o : option ascii) : bool :=
  match o with
  | Some c => is_word c
  | None => false
  end.

Definition at_boundary (cur : cursor) : bool :=
  xorb (word_opt (before cur)) (word_opt (head (rest cur))).

Definition capture (n : nat) (from to : cursor) : cursor :=
  Cursor (before to) (pos to) (rest to)
         ((n, firstn (pos to - pos from) (rest from)) :: caps to).

Section Matcher.
Context {R : Type} (ic : bool).

(** Greedy [a*]: as many characters as match, then one less, ... *)
Fixpoint star (a : atom) (k : cursor -> option R)
    (bef : option ascii) (p : nat) (s : list ascii)
    (cs : list (nat * list ascii)) : option R :=
  match s with
  | c :: s' =>
      if atom_match ic a c then
        match star a k (Some c) (S p) s' cs with
        | Some x => Some x
        | None => k (Cursor bef p s cs)
        end
      else k (Cursor bef p s cs)
  | [] => k (Cursor bef p s cs)
  end.

(** Lazy [a*?]: no character, then one, ... *)
Fixpoint star_lazy (a : atom) (k : cursor -> option R)
    (bef : option ascii) (p : nat) (s : list ascii)
    (cs : list (nat * list ascii)) : option R :=
  match k (Cursor bef p s cs) with
  | Some x => Some x
  | None =>
      match s with
      | c :: s' =>
          if atom_match ic a c then star_lazy a k (Some c) (S p) s' cs
          else None
      | [] => None
      end
  end.

(** [run r cur k]: the first way, in priority order, to match [r] at
    [cur] such that the continuation [k] accepts what follows. *)
Fixpoint run (r : regex) (cur : cursor) (k : cursor -> option R) : option R :=
  match r with
  | Eps => k cur
  | Atom a =>
      match rest cur with
      | c :: s' =>
          if atom_match ic a c
          then k (Cursor (Some c) (S (pos cur)) s' (caps cur))
          else None
      | [] => None
      end
  | Seq r1 r2 => run r1 cur (fun cur' => run r2 cur' k)
  | Alt r1 r2 =>
      match run r1 cur k with
      | Some x => Some x
      | None => run r2 cur k
      end
  | Opt r1 =>
      match run r1 cur k with
      | Some x => Some x
      | None => k cur
      end
  | Star a => star a k (before cur) (pos cur) (rest cur) (caps cur)
  | Plus a =>
      match rest cur with
      | c :: s' =>
          if atom_match ic a c
          then star a k (Some c) (S (pos cur)) s' (caps cur)
          else None
      | [] => None
      end
  | StarLazy a => star_lazy a k (before cur) (pos cur) (rest cur) (caps cur)
  | Group n r1 => run r1 cur (fun cur' => k (capture n cur cur'))
  | Bol => if Nat.eqb (pos cur) 0 then k cur else None
  | Eol =>
      match rest cur with
      | [] => k cur
      | [c] => if N.eqb (code c) 10 then k cur else None
      | _ => None
      end
  | WordB => if at_boundary cur then k cur else None
  end.
End Matcher.

(** A match object. *)
Record rmatch := Match {
  m_start : nat;
  m_end : nat;
  m_text : list ascii;
  m_caps : list (nat * list ascii)
}.

Definition accept (p : nat) (s : list ascii) (cur : cursor) : option rmatch :=
  Some (Match p (pos cur) (firstn (pos cur - p) s) (caps cur)).

(** Try every start offset, left to right. *)
Fixpoint search_from (ic : bool) (r : regex)
    (bef : option ascii) (p : nat) (s : list ascii) : option rmatch :=
  match run ic r (Cursor bef p s []) (accept p s) with
  | Some m => Some m
  | None =>
      match s with
      | c :: s' => search_from ic r (Some c) (S p) s'
      | [] => None
      end
  end.

(** [re.search(r, s)] and [re.search(r, s, re.IGNORECASE)]. *)
Definition search (ic : bool) (r : regex) (s : string) : option rmatch :=
  search_from ic r None 0 (chars s).

Fixpoint lookup_cap (n : nat) (cs : list (nat * list ascii)) : option string :=
  match cs with
  | [] => None
  | (i, t) :: cs' => if Nat.eqb i n then Some (of_chars t) else lookup_cap n cs'
  end.

(** [m.group(0)] *)
Definition group0 (m : rmatch) : string := of_chars (m_text m).

(** [m.group(n)] for [n >= 1]; [None] when the group took no part. *)
Definition group (n : nat) (m : rmatch) : option string := lookup_cap n (m_caps m).

(** Number of capturing groups of a pattern. *)
Fixpoint ngroups (r : regex) : nat :=
  match r with
  | Seq r1 r2 | Alt r1 r2 => ngroups r1 + ngroups r2
  | Opt r1 => ngroups r1
  | Group _ r1 => S (ngroups r1)
  | _ => 0
  end.

(** [m.groups()] for a match of pattern [r]. *)
Definition groups (r : regex) (m : rmatch) : list (option string) :=
  map (fun n => group n m) (seq 1 (ngroups r)).

(** Pattern building. *)
Fixpoint lit_chars (l : list ascii) : regex :=
  match l with
  | [] => Eps
  | [c] => Atom (Lit c)
  | c :: l' => Seq (Atom (Lit c)) (lit_chars l')
  end.

Definition lit (s : string) : regex := lit_chars (chars s).

Fixpoint seqs (rs : list regex) : regex :=
  match rs with
  | [] => Eps
  | [r] => r
  | r :: rs' => Seq r (seqs rs')
  end.

Fixpoint alts (rs : list regex) : regex :=
  match rs with
  | [] => Eps
  | [r] => r
  | r :: rs' => Alt r (alts rs')
  end.

Definition alt_lits (ws : list string) : regex := alts (map lit ws).

End Re.

(** ** The attribute extractors of [FeedAttributeScraper] *)

Module Patterns.
Import Str Re.

Definition dquote : ascii := ascii_of_N 34.

Definition digit : atom := Class [CDigit].
Definition space : atom := Class [CSpace].
(** [\s*], [\s+], [\d+] *)
Definition ws : regex := Star space.
Definition ws1 : regex := Plus space.
Definition digits : regex := Plus digit.
(** [\d+(?:\.\d+)?] *)
Definition num : regex := Seq digits (Opt (Seq (Atom (Lit ".")) digits)).
(** A literal and an optional last letter, as in [inches?]. *)
Definition lit_opt (w : string) (c : string) : regex := Seq (lit w) (Opt (lit c)).
(** A pattern that matches nothing.  It stands for the literals of the
    source made of characters outside the 8-bit alphabet (the mis-encoded
    multiplication sign in the dimension patterns). *)
Definition never : regex := Atom (Class []).

(** [(?:cm|mm|m)] *)
Definition metric : regex := alt_lits ["cm"; "mm"; "m"].
(** [(?:cm|mm|m|inches?|ft)] *)
Definition any_unit : regex :=
  alts [lit "cm"; lit "mm"; lit "m"; lit_opt "inche" "s"; lit "ft"].
(** [(?:cm|mm|m|Q)] where [Q] is the double quote. *)
Definition metric_or_quote : regex :=
  alts [lit "cm"; lit "mm"; lit "m"; Atom (Lit dquote)].
(** [[xX..]], the non-ASCII members left out. *)
Definition times_class : regex := Atom (Class [CChar "x"; CChar "X"]).
(** [(?:x|..)], the alternative being a non-ASCII literal. *)
Definition times_alt : regex := Alt (lit "x") never.

Definition dimension_patterns : list regex := [
  (* Metric with labels (152cm (L) x 76cm (W) x 80cm (H)) *)
  seqs [Group 1 num; ws; metric; ws; lit "(L)"; ws; lit "x"; ws;
        Group 2 num; ws; metric; ws; lit "(W)"; ws; lit "x"; ws;
        Group 3 num; ws; metric; ws; lit "(H)"];
  (* Metric dimensions (2.72 x 11m, 152 x 76 x 80cm) *)
  seqs [Group 1 num; ws; lit "x"; ws; Group 2 num; ws;
        Opt (seqs [lit "x"; ws; Group 3 num]); ws; metric; WordB];
  (* Imperial dimensions (107in x 36ft) *)
  seqs [Group 1 num; ws;
        alts [Atom (Lit dquote); lit "'"; lit "inch"; lit "inches"; lit "in"];
        ws; lit "x"; ws; Group 2 num; ws; alt_lits ["ft"; "feet"; "'"]];
  (* With x or the multiplication sign (152 x 76 x 80 cm) *)
  seqs [Group 1 num; ws; times_class; ws; Group 2 num; ws;
        Opt (seqs [times_class; ws; Group 3 num]); ws; any_unit; WordB];
  (* Dimensions: or Size: prefix *)
  seqs [alts [lit_opt "Dimension" "s"; lit "Size"; lit_opt "Measurement" "s"];
        lit ":"; ws; Group 1 num; ws; times_alt; ws; Group 2 num; ws;
        Opt (seqs [times_alt; ws; Group 3 num]); ws; Opt any_unit];
  (* Table size format *)
  seqs [alt_lits ["Table size"; "Product size"; "Paper size"]; lit ":"; ws;
        Group 1 num; ws; metric; ws; Opt (lit "(L)"); ws; lit "x"; ws;
        Group 2 num; ws; metric];
  (* Width x Height x Depth *)
  seqs [alt_lits ["Width"; "W"]; lit ":"; ws; Group 1 num; ws; metric_or_quote;
        StarLazy AnyChar;
        alt_lits ["Height"; "H"]; lit ":"; ws; Group 2 num; ws; metric_or_quote;
        StarLazy AnyChar;
        alt_lits ["Depth"; "D"]; lit ":"; ws; Group 3 num; ws; metric_or_quote];
  (* Single dimension formats *)
  seqs [Group 1 num; ws; metric; ws;
        alt_lits ["wide"; "width"; "height"; "tall"; "long"; "length"]]
].

(** [(cm|mm|m|inches?|in|ft|feet)] *)
Definition unit_pattern : regex :=
  Group 1 (alts [lit "cm"; lit "mm"; lit "m"; lit_opt "inche" "s";
                 lit "in"; lit "ft"; lit "feet"]).

Definition weight_patterns : list regex := [
  seqs [alt_lits ["Net Weight"; "Weight"; "Net"]; lit ":"; ws;
        Group 1 num; ws; alt_lits ["kg"; "g"; "lbs"]];
  seqs [Group 1 num; ws; alt_lits ["kg"; "kgs"];
        alts [Atom space; Eol; lit ","]]
].

Definition colours : list string := [
  "black"; "white"; "red"; "blue"; "green"; "yellow"; "orange";
  "purple"; "pink"; "brown"; "grey"; "gray"; "silver"; "gold";
  "navy"; "beige"; "cream"; "multicolour"; "multi-colour"; "turquoise";
  "cyan"; "magenta"; "maroon"; "olive"; "teal"; "lime"; "indigo";
  "violet"; "coral"; "salmon"; "khaki"; "burgundy"; "champagne";
  "bronze"; "copper"; "rose"; "mint"; "lavender"; "peach"; "cherry";
  "ivory"; "pearl"; "charcoal"; "slate"; "emerald"; "sapphire"; "ruby"
].

(** [[A-Za-z\s\-]+] *)
Definition word_run : regex :=
  Plus (Class [CRange "A" "Z"; CRange "a" "z"; CSpace; CChar "-"]).
(** [[A-Za-z]+] *)
Definition letters : regex := Plus (Class [CRange "A" "Z"; CRange "a" "z"]).
(** [[a-z]+] *)
Definition lower_letters : regex := Plus (Class [CRange "a" "z"]).

Definition colour_patterns : list regex := [
  seqs [alt_lits ["Colour"; "Color"]; lit ":"; ws; Group 1 word_run];
  seqs [alt_lits ["Available in"; "Finish"; "Shade"]; lit ":"; ws;
        Group 1 word_run];
  seqs [Group 1 letters; ws1;
        alt_lits ["Seamless"; "Background"; "Paper"; "Fabric"; "Material"]]
].

(** [RGB\s*Values?:\s*\((\d+),\s*(\d+),\s*(\d+)\)] *)
Definition rgb_pattern : regex :=
  seqs [lit "RGB"; ws; lit_opt "Value" "s"; lit ":"; ws; lit "(";
        Group 1 digits; lit ","; ws; Group 2 digits; lit ","; ws;
        Group 3 digits; lit ")"].

(** The pattern [rf'\b{w}\b'].  The vocabularies hold letters, blanks and
    hyphens only, so every character of [w] stands for itself. *)
Definition whole_word (w : string) : regex := Seq WordB (Seq (lit w) WordB).

Definition materials : list string := [
  "MDF"; "wood"; "metal"; "steel"; "aluminium"; "aluminum";
  "plastic"; "PVC"; "fabric"; "leather"; "foam"; "rubber";
  "glass"; "ceramic"; "carbon"; "composite"; "nylon"; "polyester";
  "paper"; "cardboard"; "cotton"; "wool"; "silk"; "linen";
  "vinyl"; "acrylic"; "resin"; "bamboo"; "oak"; "pine"; "mahogany";
  "stainless steel"; "brass"; "chrome"; "titanium"; "fiberglass"
].

Definition material_patterns : list regex := [
  seqs [alt_lits ["Construction"; "Material"; "Made from"; "Manufactured from"];
        lit ":"; ws;
        Group 1 (Plus (Class [CRange "A" "Z"; CRange "a" "z"; CSpace;
                              CChar "-"; CChar "/"]))];
  seqs [Alt Bol (Atom space);
        Group 1 (seqs [digits; lit "%"; ws; lit "recycled"; ws1; lower_letters])];
  seqs [alt_lits ["high quality"; "premium"]; ws1;
        Group 1 (seqs [lower_letters; ws1; lit "paper"])]
].

Definition patterns_list : list string := [
  "striped"; "stripes"; "polka dot"; "floral"; "paisley"; "plaid";
  "checkered"; "checked"; "chevron"; "geometric"; "animal print";
  "leopard"; "zebra"; "camouflage"; "camo"; "solid"; "plain"
].

(** [(?:Pattern):\s*([A-Za-z\s\-]+)] *)
Definition pattern_pattern : regex :=
  seqs [lit "Pattern"; lit ":"; ws; Group 1 word_run].

Definition apparel_patterns : list regex := [
  (* XS, S, M, L, XL, XXL, etc *)
  seqs [WordB;
        Group 1 (seqs [
          Opt (Alt (lit_opt "X" "X")
                   (Atom (Class [CChar "2"; CChar "3"; CChar "X"])));
          Atom (Class [CChar "S"; CChar "M"; CChar "L"]);
          Opt (alt_lits ["arge"; "edium"; "mall"])]);
        WordB];
  seqs [WordB; lit "size"; Opt (lit ":"); ws;
        Group 1 (Plus (Class [CRange "A" "Z"; CRange "0" "9";
                              CChar "-"; CChar "/"]));
        WordB];
  (* UK 10, US 8, EU 42 *)
  seqs [WordB; Group 1 num; ws; alt_lits ["UK"; "US"; "EU"]; WordB];
  seqs [WordB; lit "one size"; WordB];
  (* One Size Fits All *)
  seqs [WordB; lit "OSFA"; WordB]
].

End Patterns.

(** ** Faults *)

(** The two handlers of the item processor separate
    [requests.exceptions.RequestException] from every other [Exception];
    [msg] is [str(e)]. *)
Inductive exn :=
| RequestException (msg : string)
| OtherException (msg : string).

Definition result (A : Type) : Type := exn + A.

(** [None.strip()] *)
Definition none_has_no_strip : exn :=
  OtherException "'NoneType' object has no attribute 'strip'".

(** ** Documents *)

(** [json.loads(script.string)] for one embedded script: it raises, or
    yields a value that is not a dict, or a dict (its items, the values
    rendered as text). *)
Inductive json_doc :=
| JsonRaises
| JsonNotDict
| JsonDict (items : list (string * string)).

(** The parsed page as the extractors see it: [soup.get_text()], the cell
    texts of [soup.find_all('table')] / [find_all('tr')] /
    [find_all(['td','th'])], and the [application/ld+json] scripts. *)
Record Soup := {
  get_text : string;
  find_all_table : list (list (list string));
  find_all_ld_json : list json_doc
}.

Abbreviation bag := (gmap string string).

Section Extractors.
Import Str Re Patterns.

(** [f"{title} {text}"] *)
Definition search_text (title text : string) : string :=
  title +:+ " " +:+ text.

(** [[g for g in match.groups() if g]] *)
Definition truthy_groups (p : regex) (m : rmatch) : list string :=
  omap (fun g => match g with
                 | Some s => if truthy s then Some s else None
                 | None => None
                 end) (groups p m).

Definition format_dimensions (p : regex) (m : rmatch) : option string :=
  match truthy_groups p m with
  | [] => None
  | dims =>
      let unit :=
        match search true unit_pattern (group0 m) with
        | Some unit_match =>
            match group 1 unit_match with
            | Some u => u
            | None => "None"
            end
        | None => "cm"
        end in
      Some (join " x " dims +:+ " " +:+ unit)
  end.

Fixpoint first_dimensions (ps : list regex) (s : string) : option string :=
  match ps with
  | [] => None
  | p :: ps' =>
      match search true p s with
      | Some m =>
          match format_dimensions p m with
          | Some d => Some d
          | None => first_dimensions ps' s
          end
      | None => first_dimensions ps' s
      end
  end.

Definition extract_dimensions (text title : string) : option string :=
  first_dimensions dimension_patterns (search_text title text).

Fixpoint first_match (ic : bool) (ps : list regex) (s : string) : option rmatch :=
  match ps with
  | [] => None
  | p :: ps' =>
      match search ic p s with
      | Some m => Some m
      | None => first_match ic ps' s
      end
  end.

Definition extract_weight (text : string) : option string :=
  match first_match true weight_patterns text with
  | Some m => Some (strip (group0 m))
  | None => None
  end.

(** The inner loop [for colour in colours: if colour in colour_text]. *)
Definition contained_colour (colour_text : string) : option string :=
  find (fun colour => contains colour colour_text) colours.

Fixpoint labelled_colour (ps : list regex) (s : string) : result (option string) :=
  match ps with
  | [] => inr None
  | p :: ps' =>
      match search true p s with
      | Some m =>
          match group 1 m with
          | Some g =>
              match contained_colour (lower (strip g)) with
              | Some colour => inr (Some (capitalize colour))
              | None => labelled_colour ps' s
              end
          | None => inl none_has_no_strip
          end
      | None => labelled_colour ps' s
      end
  end.

(** [bool(re.search(r, s))] *)
Definition matches (ic : bool) (r : regex) (s : string) : bool :=
  match search ic r s with
  | Some _ => true
  | None => false
  end.

(** The loops [for colour in colours: if re.search(rf'\b{colour}\b', ...)]. *)
Definition whole_word_colour (ic : bool) (s : string) : option string :=
  find (fun colour => matches ic (whole_word colour) s) colours.

Definition rgb_colour (text : string) : option string :=
  match search true rgb_pattern text with
  | Some rgb_match =>
      let context := slice (m_start rgb_match - 100) (m_end rgb_match + 50) text in
      whole_word_colour true context
  | None => None
  end.

Definition extract_colour (text : string) (soup : Soup) (title : string)
    : result (option string) :=
  let search_text := search_text title text in
  match labelled_colour colour_patterns search_text with
  | inl e => inl e
  | inr (Some c) => inr (Some c)
  | inr None =>
      match rgb_colour text with
      | Some colour => inr (Some (capitalize colour))
      | None =>
          match whole_word_colour false (lower search_text) with
          | Some colour => inr (Some (capitalize colour))
          | None => inr None
          end
      end
  end.

(** [match.group(1).strip()] of the first pattern that matches. *)
Definition first_group_stripped (ps : list regex) (s : string)
    : option (result string) :=
  match first_match true ps s with
  | Some m =>
      match group 1 m with
      | Some g => Some (inr (strip g))
      | None => Some (inl none_has_no_strip)
      end
  | None => None
  end.

Definition extract_material (text : string) : result (option string) :=
  match first_group_stripped material_patterns text with
  | Some (inl e) => inl e
  | Some (inr g) => inr (Some g)
  | None =>
      let text_lower := lower text in
      let found_materials :=
        List.filter (fun material =>
                       matches false (whole_word (lower material)) text_lower)
                    materials in
      match found_materials with
      | [] => inr None
      | _ => inr (Some (join ", " (firstn 3 found_materials)))
      end
  end.

Definition extract_pattern (text : string) : result (option string) :=
  match first_group_stripped [pattern_pattern] text with
  | Some (inl e) => inl e
  | Some (inr g) => inr (Some g)
  | None =>
      let text_lower := lower text in
      match find (fun pattern_name =>
                    matches false (whole_word pattern_name) text_lower)
                 patterns_list with
      | Some pattern_name => inr (Some (capitalize pattern_name))
      | None => inr None
      end
  end.

(** [match.group(1) if match.groups() else match.group(0)] *)
Definition size_of (p : regex) (m : rmatch) : option string :=
  match groups p m with
  | [] => Some (group0 m)
  | _ => group 1 m
  end.

Fixpoint first_size (ps : list regex) (s : string) : option string :=
  match ps with
  | [] => None
  | p :: ps' =>
      match search true p s with
      | Some m => size_of p m
      | None => first_size ps' s
      end
  end.

Definition extract_size (text title : string) : option string :=
  first_size apparel_patterns (search_text title text).

(** The body of the row loop of [extract_table_data]. *)
Definition table_row (data : bag) (cells : list string) : bag :=
  match cells with
  | cell0 :: cell1 :: _ =>
      let key := lower (strip cell0) in
      let value := strip cell1 in
      if contains "dimension" key || contains "size" key then <["size" := value]> data
      else if contains "weight" key then <["weight" := value]> data
      else if contains "colour" key || contains "color" key then <["colour" := value]> data
      else if contains "material" key then <["material" := value]> data
      else data
  | _ => data
  end.

Definition extract_table_data (soup : Soup) : bag :=
  fold_left (fun data rows => fold_left table_row rows data)
            (find_all_table soup) ∅.

(** The extractors below are defined by the class and called by no one. *)

(** [a{n}] and [a{0,n}] *)
Fixpoint exactly (n : nat) (a : atom) : regex :=
  match n with
  | 0 => Eps
  | S n' => Seq (Atom a) (exactly n' a)
  end.

Fixpoint at_most (n : nat) (a : atom) : regex :=
  match n with
  | 0 => Eps
  | S n' => Opt (Seq (Atom a) (at_most n' a))
  end.

Definition extract_gsm (text : string) : option string :=
  let pattern := seqs [Group 1 digits; ws; lit "GSM"] in
  match search true pattern text with
  | Some m =>
      Some (match group 1 m with Some g => g | None => "None" end +:+ " GSM")
  | None => None
  end.

Definition gtin_patterns : list regex := [
  seqs [alt_lits ["GTIN"; "EAN"; "UPC"; "Barcode"]; lit ":"; ws;
        Group 1 (Seq (exactly 8 digit) (at_most 6 digit))];
  seqs [alt_lits ["Product Code"; "Item Code"; "SKU"]; lit ":"; ws;
        Group 1 (Plus (Class [CRange "A" "Z"; CRange "0" "9"; CChar "-"]))]
].

Definition dict_get (key : string) (items : list (string * string)) : option string :=
  option_map snd (find (fun kv => String.eqb (fst kv) key) items).

(** The body of the script loop: the value to return, if any. *)
Definition ld_json_identifier (doc : json_doc) : option string :=
  match doc with
  | JsonDict data =>
      match dict_get "gtin" data with
      | Some v => Some v
      | None =>
          match dict_get "gtin13" data with
          | Some v => Some v
          | None => dict_get "sku" data
          end
      end
  | JsonNotDict => None
  | JsonRaises => None
  end.

Fixpoint first_identifier (docs : list json_doc) : option string :=
  match docs with
  | [] => None
  | doc :: docs' =>
      match ld_json_identifier doc with
      | Some v => Some v
      | None => first_identifier docs'
      end
  end.

Definition extract_gtin (text : string) (soup : Soup) : result (option string) :=
  match first_group_stripped gtin_patterns text with
  | Some (inl e) => inl e
  | Some (inr g) => inr (Some g)
  | None => inr (first_identifier (find_all_ld_json soup))
  end.

Definition extract_motor_info (text : string) : option string :=
  let pattern :=
    Group 1 (Alt (seqs [digits; Opt (lit "W"); ws;
                        alt_lits ["motor"; "watt"; "power"]])
                 (Seq digits (lit "W"))) in
  match search true pattern text with
  | Some m => Some (strip (group0 m))
  | None => None
  end.

Definition extract_warranty (text : string) : option string :=
  let pattern :=
    Group 1 (seqs [digits; ws; alt_lits ["month"; "year"; "yr"]; ws;
                   alt_lits ["warranty"; "guarantee"]]) in
  match search true pattern text with
  | Some m => Some (strip (group0 m))
  | None => None
  end.

Definition extract_brand (text : string) (soup : Soup) : result (option string) :=
  let pattern :=
    seqs [alt_lits ["Brand"; "Manufacturer"]; lit ":"; ws;
          Group 1 (Plus (Class [CRange "A" "Z"; CRange "a" "z"; CRange "0" "9";
                                CSpace; CChar "-"; CChar "&"]))] in
  match first_group_stripped [pattern] text with
  | Some (inl e) => inl e
  | Some (inr g) => inr (Some g)
  | None => inr None
  end.

End Extractors.

(** ** The item processor *)

(** The methods the processor reaches through [self]; a call returns or
    raises. *)
Record Self := {
  self_extract_dimensions : string -> string -> result (option string);
  self_extract_weight : string -> result (option string);
  self_extract_colour : string -> Soup -> string -> result (option string);
  self_extract_material : string -> result (option string);
  self_extract_pattern : string -> result (option string);
  self_extract_size : string -> string -> result (option string);
  self_extract_table_data : Soup -> result bag;
  self_extract_gsm : string -> result (option string);
  self_extract_gtin : string -> Soup -> result (option string);
  self_extract_motor_info : string -> result (option string);
  self_extract_warranty : string -> result (option string);
  self_extract_brand : string -> Soup -> result (option string)
}.

(** The class as written. *)
Definition FeedAttributeScraper : Self := {|
  self_extract_dimensions text title := inr (extract_dimensions text title);
  self_extract_weight text := inr (extract_weight text);
  self_extract_colour := extract_colour;
  self_extract_material := extract_material;
  self_extract_pattern := extract_pattern;
  self_extract_size text title := inr (extract_size text title);
  self_extract_table_data soup := inr (extract_table_data soup);
  self_extract_gsm text := inr (extract_gsm text);
  self_extract_gtin := extract_gtin;
  self_extract_motor_info text := inr (extract_motor_info text);
  self_extract_warranty text := inr (extract_warranty text);
  self_extract_brand := extract_brand
|}.

(** What the program does to the outside, in order. *)
Inductive event :=
| EvGet (url : string)
| EvSleep (delay_ms : Z)
| EvError (msg : string).

(** The network and the HTML parser: [self.session.get(url, timeout=15)],
    [raise_for_status()] and [BeautifulSoup(response.content,
    'html.parser')] either raise or hand back the parsed page.  The answer
    may depend on everything that happened before. *)
Definition network : Type := list event -> string -> result Soup.

(** One statement of the [try] block, run on the bag. *)
Definition step : Type := bag -> result bag.

(** [v = extractor(...)] followed by [if v: attributes[key] = v]. *)
Definition store (key : string) (extracted : result (option string)) : step :=
  fun attributes =>
    match extracted with
    | inl e => inl e
    | inr (Some v) =>
        if Str.truthy v then inr (<[key := v]> attributes) else inr attributes
    | inr None => inr attributes
    end.

(** [attributes.update(table_data)] *)
Definition update (table_data : result bag) : step :=
  fun attributes =>
    match table_data with
    | inl e => inl e
    | inr data => inr (data ∪ attributes)
    end.

Definition extraction_steps (self : Self) (soup : Soup) (title : string) : list step :=
  let page_text := get_text soup in
  [ store "size_dimensions" (self_extract_dimensions self page_text title);
    store "weight" (self_extract_weight self page_text);
    store "color" (self_extract_colour self page_text soup title);
    store "material" (self_extract_material self page_text);
    store "pattern" (self_extract_pattern self page_text);
    store "size" (self_extract_size self page_text title);
    update (self_extract_table_data self soup) ].

(** The bag is updated in place: when a statement raises, what the
    earlier ones stored is still there. *)
Fixpoint run_steps (steps : list step) (attributes : bag) : bag * option exn :=
  match steps with
  | [] => (attributes, None)
  | s :: steps' =>
      match s attributes with
      | inl e => (attributes, Some e)
      | inr attributes' => run_steps steps' attributes'
      end
  end.

(** The two [except] clauses. *)
Definition error_text (e : exn) : string :=
  match e with
  | RequestException msg => "Request error: " +:+ msg
  | OtherException msg => "Processing error: " +:+ msg
  end.

Definition scrape_product_attributes (self : Self) (net : network)
    (product_data : bag) (log : list event) : bag * list event :=
  let attributes := product_data in
  let url := default "" (attributes !! "url") in
  if negb (Str.truthy url) then (<["error" := "No URL provided"]> attributes, log)
  else
    let log' := log ++ [EvGet url] in
    match net log url with
    | inl e => (<["error" := error_text e]> attributes, log')
    | inr soup =>
        let title := default "" (attributes !! "title") in
        match run_steps (extraction_steps self soup title) attributes with
        | (attributes', Some e) => (<["error" := error_text e]> attributes', log')
        | (attributes', None) => (attributes', log')
        end
    end.

(** ** The feed parser *)

(** An element of the parsed feed: its tag with the namespace expanded
    (as [{uri}name]), its text and its children. *)
Set Warnings "-register-all".
Inductive Element := Elem (tag : string) (text : option string) (children : list Element).

Definition tag (e : Element) : string := let 'Elem t _ _ := e in t.
Definition text (e : Element) : option string := let 'Elem _ x _ := e in x.
Definition children (e : Element) : list Element := let 'Elem _ _ cs := e in cs.

(** [e.iter()]: the element and its descendants in document order. *)
Fixpoint iter (e : Element) : list Element :=
  match e with
  | Elem _ _ cs => e :: List.flat_map iter cs
  end.

(** [root.findall('.//' + name)]: the descendants of the root with that tag. *)
Definition findall_descendants (name : string) (root : Element) : list Element :=
  List.filter (fun e => String.eqb (tag e) name) (List.flat_map iter (children root)).

(** [item.find(name)]: the first child with that tag. *)
Definition find_child (name : string) (item : Element) : option Element :=
  find (fun e => String.eqb (tag e) name) (children item).

Definition g_namespace : string := "{http://base.google.com/ns/1.0}".

(** [item.find('g:' + name, namespaces)], else [item.find(name)]. *)
Definition find_field (name : string) (item : Element) : option Element :=
  match find_child (g_namespace +:+ name) item with
  | Some e => Some e
  | None => find_child name item
  end.

(** [elem.text.strip()] when [elem is not None and elem.text]. *)
Definition field_text (name : string) (item : Element) : option string :=
  match find_field name item with
  | Some e =>
      match text e with
      | Some t => if Str.truthy t then Some (Str.strip t) else None
      | None => None
      end
  | None => None
  end.

(** The body of the item loop up to the test on [url]. *)
Definition product_of (item : Element) : bag :=
  let product : bag := ∅ in
  let product :=
    match field_text "id" item with
    | Some v => <["id" := v]> product
    | None => product
    end in
  let product :=
    match field_text "title" item with
    | Some v => <["title" := v]> product
    | None => product
    end in
  match field_text "link" item with
  | Some url =>
      if Str.startswith url "http" then <["url" := url]> product else product
  | None => product
  end.

(** [if 'url' in product: products.append(product)] *)
Definition append_product (products : list bag) (item : Element) : list bag :=
  let product := product_of item in
  match product !! "url" with
  | Some _ => products ++ [product]
  | None => products
  end.

Section FeedParser.
(** [ET.fromstring]: the tree, or the parse error it raises. *)
Variable fromstring : string -> result Element.

(** The products and what [st.error] was given. *)
Definition extract_products_from_xml (xml_content : string)
    : list bag * list event :=
  match fromstring xml_content with
  | inr root =>
      let items := findall_descendants "item" root in
      (fold_left append_product items [], [])
  | inl e =>
      ([], [EvError ("Error parsing XML: " +:+
                     match e with
                     | RequestException msg => msg
                     | OtherException msg => msg
                     end)])
  end.
End FeedParser.

(** ** The batch loop of [main] *)

(** [if max_urls > 0 and max_urls < len(products): products = products[:max_urls]] *)
Definition apply_limit (max_urls : Z) (products : list bag) : list bag :=
  if (0 <? max_urls)%Z && (max_urls <? Z.of_nat (length products))%Z
  then firstn (Z.to_nat max_urls) products
  else products.

(** [for i, product in enumerate(products)], from index [i] on; [total]
    is [len(products)]. *)
Fixpoint process_from (self : Self) (net : network) (delay_ms : Z)
    (total i : nat) (products : list bag)
    (all_attributes : list bag) (log : list event) : list bag * list event :=
  match products with
  | [] => (all_attributes, log)
  | product :: products' =>
      let '(attributes, log1) := scrape_product_attributes self net product log in
      let all_attributes' := all_attributes ++ [attributes] in
      let log2 := if Nat.ltb i (total - 1) then log1 ++ [EvSleep delay_ms] else log1 in
      process_from self net delay_ms total (S i) products' all_attributes' log2
  end.

Definition process_products (self : Self) (net : network) (delay_ms max_urls : Z)
    (products : list bag) : list bag * list event :=
  let products := apply_limit max_urls products in
  process_from self net delay_ms (length products) 0 products [] [].

(** ** Notions the statements are written with *)

(** The keys of a record made by the feed parser. *)
Definition item_keys : gset string := {[ "id"; "title"; "url" ]}.

Definition is_item_record (record : bag) : Prop := dom record ⊆ item_keys.

(** The keys of the six pattern extractors, in the order they run. *)
Definition regex_keys : list string :=
  ["size_dimensions"; "weight"; "color"; "material"; "pattern"; "size"].

Definition table_keys : gset string :=
  {[ "size"; "weight"; "colour"; "material" ]}.

Definition attribute_keys : gset string :=
  {[ "size_dimensions"; "weight"; "color"; "material"; "pattern"; "size";
     "colour"; "error" ]}.

(** The key a table row is filed under, from the text of its first cell. *)
Definition classify (key : string) : option string :=
  if Str.contains "dimension" key || Str.contains "size" key then Some "size"
  else if Str.contains "weight" key then Some "weight"
  else if Str.contains "colour" key || Str.contains "color" key then Some "colour"
  else if Str.contains "material" key then Some "material"
  else None.

(** A qualifying row: two cells or more and a first cell that classifies. *)
Definition row_entry (cells : list string) : option (string * string) :=
  match cells with
  | cell0 :: cell1 :: _ =>
      match classify (Str.lower (Str.strip cell0)) with
      | Some key => Some (key, Str.strip cell1)
      | None => None
      end
  | _ => None
  end.

(** The values of the rows filed under [key], all tables in document order. *)
Definition qualifying_values (key : string) (soup : Soup) : list string :=
  omap (fun cells =>
          match row_entry cells with
          | Some (k, v) => if String.eqb k key then Some v else None
          | None => None
          end)
       (concat (find_all_table soup)).

(** [\b] between the text [l] read so far and the text [r] to come. *)
Definition boundary (l r : list ascii) : bool :=
  xorb (Re.word_opt (last l)) (Re.word_opt (head r)).

(** [w] stands in [s] with a word boundary on either side. *)
Definition occurs_as_whole_word (w s : string) : Prop :=
  exists pre post : list ascii,
    Str.chars s = pre ++ Str.chars w ++ post /\
    boundary pre (Str.chars w ++ post) = true /\
    boundary (pre ++ Str.chars w) post = true.

(** The trimmed text of the link element the two-tier lookup selects. *)
Definition link_value (item : Element) : option string := field_text "link" item.

Definition accepted (item : Element) : bool :=
  match link_value item with
  | Some url => Str.startswith url "http"
  | None => false
  end.

(** The exception the [try] block of the processor raises, if any. *)
Definition raised (self : Self) (net : network) (product_data : bag)
    (log : list event) : option exn :=
  let url := default "" (product_data !! "url") in
  if negb (Str.truthy url) then None
  else
    match net log url with
    | inl e => Some e
    | inr soup =>
        snd (run_steps (extraction_steps self soup
                          (default "" (product_data !! "title"))) product_data)
    end.

(** Two scrapers with the same seven methods the processor calls. *)
Definition same_called_methods (a b : Self) : Prop :=
  self_extract_dimensions a = self_extract_dimensions b /\
  self_extract_weight a = self_extract_weight b /\
  self_extract_colour a = self_extract_colour b /\
  self_extract_material a = self_extract_material b /\
  self_extract_pattern a = self_extract_pattern b /\
  self_extract_size a = self_extract_size b /\
  self_extract_table_data a = self_extract_table_data b.

(** A pattern closes group [n] on every way to match it. *)
Fixpoint always_captures (n : nat) (r : Re.regex) : bool :=
  match r with
  | Re.Group m r1 => Nat.eqb m n || always_captures n r1
  | Re.Seq r1 r2 => always_captures n r1 || always_captures n r2
  | Re.Alt r1 r2 => always_captures n r1 && always_captures n r2
  | _ => false
  end.

(** Scenario A of the specification. *)
Module ScenarioA.
Definition url : string := "http://example.com/p1".
Definition title : string := "Blue Cotton Scarf M".
Definition page_text : string :=
  "Colour: Blue. Material: Cotton. Size: M. Weight: 0.3 kg.".
Definition feed : Element :=
  Elem "rss" None
    [Elem "channel" None
       [Elem "item" None
          [Elem "title" (Some title) []; Elem "link" (Some url) []]]].
Definition soup : Soup :=
  {| get_text := page_text; find_all_table := []; find_all_ld_json := [] |}.
Definition product : bag := <["url" := url]> (<["title" := title]> ∅).
End ScenarioA.

(** Inputs the statements are tried on. *)
Module Fixtures.
(** The class with a material extractor that raises. *)
Definition raising_material : Self := {|
  self_extract_dimensions := self_extract_dimensions FeedAttributeScraper;
  self_extract_weight := self_extract_weight FeedAttributeScraper;
  self_extract_colour := self_extract_colour FeedAttributeScraper;
  self_extract_material _ := inl (OtherException "out of memory");
  self_extract_pattern := self_extract_pattern FeedAttributeScraper;
  self_extract_size := self_extract_size FeedAttributeScraper;
  self_extract_table_data := self_extract_table_data FeedAttributeScraper;
  self_extract_gsm := self_extract_gsm FeedAttributeScraper;
  self_extract_gtin := self_extract_gtin FeedAttributeScraper;
  self_extract_motor_info := self_extract_motor_info FeedAttributeScraper;
  self_extract_warranty := self_extract_warranty FeedAttributeScraper;
  self_extract_brand := self_extract_brand FeedAttributeScraper
|}.
(** The class with uncalled extractors that raise. *)
Definition raising_uncalled : Self := {|
  self_extract_dimensions := self_extract_dimensions FeedAttributeScraper;
  self_extract_weight := self_extract_weight FeedAttributeScraper;
  self_extract_colour := self_extract_colour FeedAttributeScraper;
  self_extract_material := self_extract_material FeedAttributeScraper;
  self_extract_pattern := self_extract_pattern FeedAttributeScraper;
  self_extract_size := self_extract_size FeedAttributeScraper;
  self_extract_table_data := self_extract_table_data FeedAttributeScraper;
  self_extract_gsm _ := inl (OtherException "never called");
  self_extract_gtin _ _ := inl (OtherException "never called");
  self_extract_motor_info _ := inl (OtherException "never called");
  self_extract_warranty _ := inl (OtherException "never called");
  self_extract_brand _ _ := inl (OtherException "never called")
|}.
(** Every request is answered with the page of scenario A. *)
Definition net_ok : network := fun _ _ => inr ScenarioA.soup.
(** Every request times out. *)
Definition net_timeout : network :=
  fun _ _ => inl (RequestException "Read timed out.").
(** The first request of a run times out, the later ones are answered. *)
Definition net_first_fails : network :=
  fun log _ =>
    match log with
    | [] => inl (RequestException "Read timed out.")
    | _ :: _ => inr ScenarioA.soup
    end.
(** A record without url. *)
Definition no_url : bag := <["title" := ScenarioA.title]> ∅.
Definition second_product : bag :=
  <["url" := "http://example.com/p2"]> (<["id" := "2"]> ∅).
(** A page whose text and whose table both give a size. *)
Definition soup_with_table : Soup := {|
  get_text := "Size: M";
  find_all_table := [[["Size"; "Large"]; ["Colour"; "Navy"]; ["Product size"; " XL "]]];
  find_all_ld_json := []
|}.
Definition net_table : network := fun _ _ => inr soup_with_table.
(** A feed of two items, the second with a link that is no URL. *)
Definition feed_two : Element :=
  Elem "rss" None
    [Elem "channel" None
       [Elem "item" None
          [Elem "{http://base.google.com/ns/1.0}id" (Some "1") [];
           Elem "{http://base.google.com/ns/1.0}link"
                (Some " http://example.com/p1 ") []];
        Elem "item" None
          [Elem "id" (Some "2") []; Elem "link" (Some "ftp://example.com/p2") []]]].
End Fixtures.

(** ** Notions the proofs are written with *)

(** A statement that only adds keys, all of them from [keys]. *)
Definition adds_within (keys : gset string) (s : step) : Prop :=
  forall a a', s a = inr a' -> dom a ⊆ dom a' /\ dom a' ⊆ dom a ∪ keys.

(** A statement whose effect on a key depends on the bag through that key
    only, and which raises or not whatever the bag. *)
Definition keywise (s : step) : Prop :=
  forall a1 a2,
    match s a1, s a2 with
    | inr b1, inr b2 => forall k, a1 !! k = a2 !! k -> b1 !! k = b2 !! k
    | inl e1, inl e2 => e1 = e2
    | _, _ => False
    end.

(** Group [n] is among the groups closed so far. *)
Definition has_group (n : nat) (cs : list (nat * list ascii)) : Prop :=
  is_Some (Re.lookup_cap n cs).

(** The character before the position once [w] has been read. *)
Definition before_after (bef : option ascii) (w : list ascii) : option ascii :=
  match last w with
  | Some c => Some c
  | None => bef
  end.

(** ** The result table of [main] *)

(** [main]: the order of the columns of the result table. *)
Definition priority_cols : list string := ["id"; "title"; "url"].

(** [col in cols] *)
Definition is_in (col : string) (cols : list string) : bool :=
  existsb (String.eqb col) cols.

(** [columns] is [df.columns]. *)
Definition column_order (columns : list string) : list string :=
  let other_cols :=
    List.filter (fun col => negb (is_in col priority_cols) &&
                            negb (String.eqb col "error")) columns in
  let column_order :=
    if is_in "error" columns
    then priority_cols ++ other_cols ++ ["error"]
    else priority_cols ++ other_cols in
  List.filter (fun col => is_in col columns) column_order.

(** ** Notions of the further properties *)

(** The value a pattern extractor hands to the bag: what it returns when
    that is a non-empty string. *)
Definition stored_value (extracted : result (option string)) : option string :=
  match extracted with
  | inr (Some v) => if Str.truthy v then Some v else None
  | _ => None
  end.

(** What the six pattern extractors of the class give for a page, by key. *)
Definition pattern_value (soup : Soup) (title key : string) : option string :=
  let page_text := get_text soup in
  if String.eqb key "size_dimensions"
  then stored_value (inr (extract_dimensions page_text title))
  else if String.eqb key "weight" then stored_value (inr (extract_weight page_text))
  else if String.eqb key "color" then stored_value (extract_colour page_text soup title)
  else if String.eqb key "material" then stored_value (extract_material page_text)
  else if String.eqb key "pattern" then stored_value (extract_pattern page_text)
  else if String.eqb key "size" then stored_value (inr (extract_size page_text title))
  else None.

(** The first two cells of the rows that have two cells or more. *)
Definition two_cell_rows (soup : Soup) : list (string * string) :=
  omap (fun cells =>
          match cells with
          | cell0 :: cell1 :: _ => Some (cell0, cell1)
          | _ => None
          end) (concat (find_all_table soup)).

(** The request the processor makes for a product, if any. *)
Definition request_of (product : bag) : list event :=
  let url := default "" (product !! "url") in
  if Str.truthy url then [EvGet url] else [].

(** The requests of a batch, with one pause between consecutive products. *)
Fixpoint batch_events (delay_ms : Z) (products : list bag) : list event :=
  match products with
  | [] => []
  | [product] => request_of product
  | product :: products' =>
      request_of product ++ EvSleep delay_ms :: batch_events delay_ms products'
  end.

(** [w] is a piece of [s]. *)
Definition is_substring (w s : string) : Prop :=
  exists pre post : list ascii, Str.chars s = pre ++ Str.chars w ++ post.

(** A script that gives no identifier: it does not parse, is no dict, or
    has none of the three keys. *)
Definition gives_no_identifier (doc : json_doc) : Prop :=
  match doc with
  | JsonRaises => True
  | JsonNotDict => True
  | JsonDict data =>
      dict_get "gtin" data = None /\ dict_get "gtin13" data = None /\
      dict_get "sku" data = None
  end.

(** More inputs the statements are tried on. *)
Module MoreFixtures.
(** An item whose namespaced link is empty and whose bare link is a URL. *)
Definition shadowed_item : Element :=
  Elem "item" None
    [Elem "link" (Some "http://example.com/p3") [];
     Elem "{http://base.google.com/ns/1.0}link" None []].
(** The record the parser makes of the first item of [Fixtures.feed_two]. *)
Definition first_product : bag :=
  <["url" := "http://example.com/p1"]> (<["id" := "1"]> ∅).
(** The table of [Fixtures.soup_with_table] with a one-cell row, a third
    cell and a second table. *)
Definition soup_with_wide_table : Soup := {|
  get_text := "";
  find_all_table :=
    [[["Size"; "Large"; "ignored"]; ["Heading"]];
     [["Colour"; "Navy"]; []; ["Product size"; " XL "]]];
  find_all_ld_json := []
|}.
(** A page with three embedded scripts. *)
Definition soup_with_scripts : Soup := {|
  get_text := "";
  find_all_table := [];
  find_all_ld_json :=
    [JsonRaises; JsonDict [("name", "Scarf")];
     JsonDict [("sku", "SC-1"); ("gtin13", "4006381333931")];
     JsonDict [("gtin", "12345678")]]
|}.
End MoreFixtures.

(** * The request, step by step *)

(** What [self.session.get] returns: the final response. *)
Record Response := {
  status_code : Z;
  reason : string;
  response_url : string;
  content : string
}.

(** [f"{n}"] for an integer. *)
Definition str_of_int (n : Z) : string := NilZero.string_of_int (Z.to_int n).

(** [Response.raise_for_status] of the requests library: an [HTTPError],
    which is a [RequestException], for a status from 400 to 599, and
    nothing for any other status. *)
Definition raise_for_status (response : Response) : result unit :=
  let status := status_code response in
  if (400 <=? status)%Z && (status <? 500)%Z then
    inl (RequestException (str_of_int status +:+ " Client Error: " +:+
                           reason response +:+ " for url: " +:+
                           response_url response))
  else if (500 <=? status)%Z && (status <? 600)%Z then
    inl (RequestException (str_of_int status +:+ " Server Error: " +:+
                           reason response +:+ " for url: " +:+
                           response_url response))
  else inr tt.

(** The three calls that open the [try] block: [get] is
    [self.session.get(url, timeout=15)], which raises (time-out, connection
    failure) or returns the response; then [response.raise_for_status()];
    [BeautifulSoup] is the HTML parser on [response.content]. *)
Definition fetch (get : list event -> string -> result Response)
    (BeautifulSoup : string -> result Soup) : network :=
  fun log url =>
    match get log url with
    | inl e => inl e
    | inr response =>
        match raise_for_status response with
        | inl e => inl e
        | inr _ => BeautifulSoup (content response)
        end
    end.

(** Responses the statements are tried on. *)
Module StatusFixtures.
(** A final response that is neither a success nor rejected: a 300 has no
    [Location] to follow and carries a body. *)
Definition multiple_choices : Response := {|
  status_code := 300;
  reason := "Multiple Choices";
  response_url := "http://example.com/p1";
  content := "<p>Colour: Blue. Material: Cotton. Size: M. Weight: 0.3 kg.</p>"
|}.
Definition not_found : Response := {|
  status_code := 404;
  reason := "Not Found";
  response_url := "http://example.com/p1";
  content := "<h1>Not Found</h1>"
|}.
Definition get_multiple_choices : list event -> string -> result Response :=
  fun _ _ => inr multiple_choices.
Definition get_not_found : list event -> string -> result Response :=
  fun _ _ => inr not_found.
Definition get_times_out : list event -> string -> result Response :=
  fun _ _ => inl (RequestException "Read timed out.").
(** The parser that reads the page of scenario A. *)
Definition parse_scenario : string -> result Soup := fun _ => inr ScenarioA.soup.
End StatusFixtures.

(** * Notions of the extractor shapes *)





(** A letter, a blank or a hyphen: what [[A-Za-z\s\-]] reads. *)
Definition label_char (c : ascii) : bool :=
  Str.is_alpha c || Str.is_space c || Ascii.eqb c "-".

(** Every group of the pattern has the body [body]. *)
Fixpoint groups_are (body : Re.regex) (r : Re.regex) : Prop :=
  match r with
  | Re.Seq r1 r2 | Re.Alt r1 r2 => groups_are body r1 /\ groups_are body r2
  | Re.Opt r1 => groups_are body r1
  | Re.Group _ r1 => r1 = body
  | _ => True
  end.



(** [k] is called after the text [w], which has [P], has been read from
    [cur], with the groups of [cur]. *)
Definition reads {R : Type} (P : list ascii -> Prop) (cur : Re.cursor)
    (k : Re.cursor -> option R) (x : R) : Prop :=
  exists w s' bef',
    Re.rest cur = w ++ s' /\ P w /\
    k (Re.Cursor bef' (Re.pos cur + length w) s' (Re.caps cur)) = Some x.

(** * Lemmas *)

(** ** The matcher: groups *)

Module ReFacts.
Import Str Re.

Lemma has_group_cons n m t cs :
  m = n \/ has_group n cs -> has_group n ((m, t) :: cs).
Proof.
  unfold has_group. simpl. destruct (Nat.eqb_spec m n); [eauto|].
  intros [?|?]; [done|auto].
Qed.

Section Groups.
Context {R : Type} (ic : bool).

Lemma star_inv (a : atom) (k : cursor -> option R) bef p s cs x :
  star ic a k bef p s cs = Some x ->
  exists cur', k cur' = Some x /\ caps cur' = cs.
Proof.
  revert bef p. induction s as [|c s IH]; intros bef p; simpl.
  - eauto.
  - destruct (atom_match ic a c); [|eauto].
    destruct (star ic a k (Some c) (S p) s cs) eqn:Hs; [|eauto].
    intros [= ->]. eauto.
Qed.

Lemma star_lazy_inv (a : atom) (k : cursor -> option R) bef p s cs x :
  star_lazy ic a k bef p s cs = Some x ->
  exists cur', k cur' = Some x /\ caps cur' = cs.
Proof.
  revert bef p. induction s as [|c s IH]; intros bef p; simpl.
  - destruct (k _) eqn:Hk; [|done]. intros [= ->]. eauto.
  - destruct (k _) eqn:Hk; [intros [= ->]; eauto|].
    destruct (atom_match ic a c); [|done]. eauto.
Qed.

(** Groups are only ever added, and a pattern that always closes group
    [n] hands it to its continuation. *)
Lemma run_captures (n : nat) (r : regex) :
  forall cur (k : cursor -> option R) x,
    run ic r cur k = Some x ->
    exists cur', k cur' = Some x /\
      (has_group n (caps cur) \/ always_captures n r = true ->
       has_group n (caps cur')).
Proof.
  induction r as [|a|r1 IH1 r2 IH2|r1 IH1 r2 IH2|r1 IH1|a|a|a|m r1 IH1| | |];
    intros cur k x; simpl.
  - intros Hk. exists cur. split; [done|]. by intros [?|?].
  - destruct (rest cur) as [|c s]; [done|].
    destruct (atom_match ic a c); [|done].
    intros Hk. eexists. split; [exact Hk|]. by intros [?|?].
  - intros H. apply IH1 in H as (cur1 & H & Hc1).
    apply IH2 in H as (cur2 & H & Hc2).
    exists cur2. split; [done|]. intros [?|Hor]; [auto|].
    apply orb_true_iff in Hor as [?|?]; auto.
  - destruct (run ic r1 cur k) eqn:H1.
    + intros [= ->]. apply IH1 in H1 as (cur1 & H & Hc1).
      exists cur1. split; [done|]. intros [?|Hand]; [auto|].
      apply andb_true_iff in Hand as [? ?]; auto.
    + intros H. apply IH2 in H as (cur2 & H & Hc2).
      exists cur2. split; [done|]. intros [?|Hand]; [auto|].
      apply andb_true_iff in Hand as [? ?]; auto.
  - destruct (run ic r1 cur k) eqn:H1.
    + intros [= ->]. apply IH1 in H1 as (cur1 & H & Hc1).
      exists cur1. split; [done|]. intros [?|?]; [auto|done].
    + intros Hk. exists cur. split; [done|]. by intros [?|?].
  - intros H. apply star_inv in H as (cur' & H & Hc).
    exists cur'. split; [done|]. rewrite Hc. by intros [?|?].
  - destruct (rest cur) as [|c s]; [done|].
    destruct (atom_match ic a c); [|done].
    intros H. apply star_inv in H as (cur' & H & Hc).
    exists cur'. split; [done|]. rewrite Hc. by intros [?|?].
  - intros H. apply star_lazy_inv in H as (cur' & H & Hc).
    exists cur'. split; [done|]. rewrite Hc. by intros [?|?].
  - intros H. apply IH1 in H as (cur1 & H & Hc1).
    eexists. split; [exact H|]. simpl.
    intros [?|Hor]; apply has_group_cons.
    + auto.
    + apply orb_true_iff in Hor as [Heq|?]; [|auto].
      left. by apply Nat.eqb_eq.
  - destruct (Nat.eqb (pos cur) 0); [|done].
    intros Hk. exists cur. split; [done|]. by intros [?|?].
  - destruct (rest cur) as [|c [|c' s]]; [| |done].
    + intros Hk. exists cur. split; [done|]. by intros [?|?].
    + destruct (N.eqb (code c) 10); [|done].
      intros Hk. exists cur. split; [done|]. by intros [?|?].
  - destruct (at_boundary cur); [|done].
    intros Hk. exists cur. split; [done|]. by intros [?|?].
Qed.
End Groups.

Lemma search_from_captures (n : nat) ic r bef p s m :
  always_captures n r = true ->
  search_from ic r bef p s = Some m -> is_Some (group n m).
Proof.
  intros Hr. revert bef p. induction s as [|c s IH]; intros bef p; simpl.
  - destruct (run _ _ _ _) eqn:Hrun; [|done]. intros [= ->].
    apply (run_captures ic n) in Hrun as (cur' & [= <-] & Hc). apply Hc. auto.
  - destruct (run _ _ _ _) eqn:Hrun; [|apply IH]. intros [= ->].
    apply (run_captures ic n) in Hrun as (cur' & [= <-] & Hc). apply Hc. auto.
Qed.

Lemma search_captures (n : nat) ic r s m :
  always_captures n r = true -> search ic r s = Some m -> is_Some (group n m).
Proof. apply search_from_captures. Qed.

End ReFacts.

Module WordFacts.
Import Str Re Patterns.

Lemma starts_with_chars_spec (w l : list ascii) :
  starts_with_chars w l = true <-> exists post, l = w ++ post.
Proof.
  revert l. induction w as [|a w IH]; intros l; simpl.
  - split; eauto.
  - destruct l as [|b l].
    + split; [done|]. by intros [post ?].
    + rewrite andb_true_iff, IH, Ascii.eqb_eq. split.
      * intros [-> [post ->]]. eauto.
      * intros [post [= -> ->]]. eauto.
Qed.

Lemma before_after_last (pre w : list ascii) :
  before_after (last pre) w = last (pre ++ w).
Proof.
  unfold before_after. destruct w as [|c w] using rev_ind.
  - by rewrite app_nil_r.
  - by rewrite app_assoc, !last_snoc.
Qed.

Lemma before_after_cons (bef : option ascii) (c : ascii) (w : list ascii) :
  before_after (Some c) w = before_after bef (c :: w).
Proof.
  unfold before_after. destruct w as [|c2 w] using rev_ind; [done|].
  by rewrite app_comm_cons, !last_snoc.
Qed.

Lemma before_after_None (pre : list ascii) : before_after None pre = last pre.
Proof. unfold before_after. by destruct (last pre). Qed.

Section Literal.
Context {R : Type}.

Lemma run_lit_cons (c : ascii) (w : list ascii) cur (k : cursor -> option R) :
  run false (lit_chars (c :: w)) cur k =
  run false (Atom (Lit c)) cur (fun cur' => run false (lit_chars w) cur' k).
Proof. by destruct w. Qed.

Lemma run_lit_chars (w : list ascii) :
  forall cur (k : cursor -> option R) x,
    run false (lit_chars w) cur k = Some x <->
    exists post, rest cur = w ++ post /\
      k (Cursor (before_after (before cur) w) (pos cur + length w) post
                (caps cur)) = Some x.
Proof.
  induction w as [|c w IH]; intros cur k x.
  - simpl. unfold before_after. simpl. rewrite Nat.add_0_r.
    destruct cur as [b p s cs]; simpl. split.
    + intros Hk. by exists s.
    + by intros (post & -> & Hk).
  - rewrite run_lit_cons. simpl.
    destruct (rest cur) as [|c' s] eqn:Hrest.
    + split; [done|]. by intros (post & ? & _).
    + destruct (Ascii.eqb_spec c' c) as [->|Hne].
      * rewrite IH. simpl.
        rewrite (before_after_cons (before cur)), <- Nat.add_succ_comm. split.
        -- intros (post & -> & Hk). eauto.
        -- intros (post & [= ->] & Hk). eauto.
      * split; [done|]. intros (post & [= ? _] & _). done.
Qed.

Lemma run_whole_word (w : string) cur (k : cursor -> option R) x :
  run false (whole_word w) cur k = Some x <->
  at_boundary cur = true /\
  exists post, rest cur = chars w ++ post /\
    let cur' := Cursor (before_after (before cur) (chars w))
                       (pos cur + length (chars w)) post (caps cur) in
    at_boundary cur' = true /\ k cur' = Some x.
Proof.
  unfold whole_word, lit. simpl.
  destruct (at_boundary cur); [|split; [done|by intros [? _]]].
  rewrite run_lit_chars. split.
  - intros (post & Hrest & Hk). split; [done|]. exists post. split; [done|].
    simpl in *. destruct (at_boundary _); [done|done].
  - intros (_ & post & Hrest & Hb & Hk). exists post. split; [done|].
    simpl in *. by rewrite Hb.
Qed.
End Literal.

(** [search_from] succeeds when the pattern matches at some offset. *)
Lemma search_from_is_Some ic r bef p s :
  is_Some (search_from ic r bef p s) <->
  exists pre post, s = pre ++ post /\
    is_Some (run ic r (Cursor (before_after bef pre) (p + length pre) post [])
                 (accept (p + length pre) post)).
Proof.
  revert bef p. induction s as [|c s IH]; intros bef p; simpl.
  - destruct (run ic r (Cursor bef p [] []) (accept p [])) eqn:Hrun.
    + split; [|eauto]. intros _. exists [], []. split; [done|].
      unfold before_after. simpl. rewrite Nat.add_0_r, Hrun. eauto.
    + split; [by intros [? ?]|]. intros (pre & post & Heq & Hs).
      symmetry in Heq. apply app_eq_nil in Heq as [-> ->].
      unfold before_after in Hs. simpl in Hs. rewrite Nat.add_0_r, Hrun in Hs.
      by destruct Hs.
  - destruct (run ic r (Cursor bef p (c :: s) []) (accept p (c :: s))) eqn:Hrun.
    + split; [|eauto]. intros _. exists [], (c :: s). split; [done|].
      unfold before_after. simpl. rewrite Nat.add_0_r, Hrun. eauto.
    + rewrite IH. split.
      * intros (pre & post & -> & Hs). exists (c :: pre), post. split; [done|].
        simpl. rewrite <- Nat.add_succ_comm.
        by rewrite <- (before_after_cons bef).
      * intros (pre & post & Heq & Hs). destruct pre as [|c' pre].
        -- simpl in Heq. subst post. unfold before_after in Hs. simpl in Hs.
           rewrite Nat.add_0_r, Hrun in Hs. by destruct Hs.
        -- injection Heq as <- ->. exists pre, post. split; [done|].
           simpl in Hs. rewrite <- Nat.add_succ_comm in Hs.
           by rewrite (before_after_cons bef).
Qed.

(** The whole-word pattern finds exactly the whole-word occurrences. *)
Lemma matches_whole_word (w s : string) :
  matches false (whole_word w) s = true <-> occurs_as_whole_word w s.
Proof.
  unfold matches, search, occurs_as_whole_word.
  assert (Hs : forall o : option rmatch,
             match o with Some _ => true | None => false end = true <-> is_Some o).
  { intros [m|]; split; eauto; [done|by intros [? ?]]. }
  rewrite Hs, search_from_is_Some. clear Hs.
  split.
  - intros (pre & post & Heq & [m Hrun]).
    apply run_whole_word in Hrun as (Hb1 & post' & Hrest & Hb2 & _).
    simpl in *. subst post. exists pre, post'. split; [done|].
    unfold at_boundary in *. simpl in *.
    rewrite before_after_None in *. rewrite before_after_last in Hb2.
    by split.
  - intros (pre & post & Heq & Hb1 & Hb2).
    exists pre, (chars w ++ post). split; [done|].
    rewrite before_after_None.
    eexists. apply run_whole_word. split; [done|].
    exists post. split; [done|]. simpl. rewrite before_after_last.
    split; [done|reflexivity].
Qed.

End WordFacts.

(** ** The extractors never raise *)

Section NeverRaise.
Import Str Re Patterns ReFacts WordFacts.

Lemma first_match_In ic ps s m :
  first_match ic ps s = Some m -> exists p, In p ps /\ search ic p s = Some m.
Proof.
  induction ps as [|p ps IH]; simpl; [done|].
  destruct (search ic p s) eqn:Hs.
  - intros [= ->]. eauto.
  - intros H. destruct (IH H) as (q & ? & ?). eauto.
Qed.

Lemma first_group_stripped_ok ps s :
  Forall (fun p => always_captures 1 p = true) ps ->
  first_group_stripped ps s = None \/
  exists g, first_group_stripped ps s = Some (inr g).
Proof.
  intros Hps. unfold first_group_stripped.
  destruct (first_match true ps s) as [m|] eqn:Hm; [|by left].
  apply first_match_In in Hm as (p & Hp & Hs).
  pose proof (proj1 (List.Forall_forall _ _) Hps p Hp) as Hcap.
  destruct (search_captures 1 true p s m Hcap Hs) as [g ->]. eauto.
Qed.

Lemma contained_colour_In t colour :
  contained_colour t = Some colour -> In colour colours.
Proof. intros H. by apply find_some in H as [? _]. Qed.

Lemma whole_word_colour_In ic s colour :
  whole_word_colour ic s = Some colour -> In colour colours.
Proof. intros H. by apply find_some in H as [? _]. Qed.

Lemma labelled_colour_ok ps s :
  Forall (fun p => always_captures 1 p = true) ps ->
  labelled_colour ps s = inr None \/
  exists colour, In colour colours /\
    labelled_colour ps s = inr (Some (capitalize colour)).
Proof.
  induction 1 as [|p ps Hp _ IH]; simpl; [by left|].
  destruct (search true p s) as [m|] eqn:Hs; [|done].
  destruct (search_captures 1 true p s m Hp Hs) as [g ->].
  destruct (contained_colour _) as [colour|] eqn:Hc; [|done].
  right. exists colour. split; [|done]. by eapply contained_colour_In.
Qed.

Lemma labelled_colour_no_match ps s :
  (forall p, In p ps -> search true p s = None) ->
  labelled_colour ps s = inr None.
Proof.
  induction ps as [|p ps IH]; intros Hnone; simpl; [done|].
  rewrite (Hnone p) by (by left). apply IH. intros q Hq. apply Hnone. by right.
Qed.

Lemma colour_patterns_capture :
  Forall (fun p => always_captures 1 p = true) colour_patterns.
Proof. repeat constructor. Qed.

Lemma extract_colour_ok text soup title :
  extract_colour text soup title = inr None \/
  exists colour, In colour colours /\
    extract_colour text soup title = inr (Some (capitalize colour)).
Proof.
  unfold extract_colour.
  destruct (labelled_colour_ok colour_patterns (search_text title text)
              colour_patterns_capture) as [->|(colour & Hin & ->)]; [|eauto].
  unfold rgb_colour. destruct (search true rgb_pattern text) as [m|].
  - destruct (whole_word_colour true _) as [colour|] eqn:Hc.
    + right. exists colour. split; [by eapply whole_word_colour_In|done].
    + destruct (whole_word_colour false _) as [colour|] eqn:Hc2; [|by left].
      right. exists colour. split; [by eapply whole_word_colour_In|done].
  - destruct (whole_word_colour false _) as [colour|] eqn:Hc2; [|by left].
    right. exists colour. split; [by eapply whole_word_colour_In|done].
Qed.

Lemma extract_material_ok text : exists o, extract_material text = inr o.
Proof.
  unfold extract_material.
  destruct (first_group_stripped_ok material_patterns text) as [->|[g ->]];
    [repeat constructor| |eauto].
  destruct (List.filter _ _); eauto.
Qed.

Lemma extract_pattern_ok text : exists o, extract_pattern text = inr o.
Proof.
  unfold extract_pattern.
  destruct (first_group_stripped_ok [pattern_pattern] text) as [->|[g ->]];
    [repeat constructor| |eauto].
  destruct (find _ _); eauto.
Qed.

Lemma store_inr key o a : exists a', store key (inr o) a = inr a'.
Proof. unfold store. destruct o as [v|]; [destruct (truthy v)|]; eauto. Qed.

Lemma run_steps_return (steps : list step) :
  Forall (fun s : step => forall a, exists a', s a = inr a') steps ->
  forall a, exists a', run_steps steps a = (a', None).
Proof.
  induction 1 as [|s steps Hs _ IH]; intros a; simpl; [eauto|].
  destruct (Hs a) as [a' ->]. apply IH.
Qed.

(** Every statement of the [try] block of the class as written returns. *)
Lemma scraper_steps_return soup title a :
  exists a', run_steps (extraction_steps FeedAttributeScraper soup title) a = (a', None).
Proof.
  apply run_steps_return. unfold extraction_steps. simpl.
  destruct (extract_colour_ok (get_text soup) soup title) as [Hc|(colour & _ & Hc)];
  destruct (extract_material_ok (get_text soup)) as [om Hm];
  destruct (extract_pattern_ok (get_text soup)) as [op Hp];
  rewrite Hc, Hm, Hp;
  repeat constructor; try (intros b; apply store_inr); intros b; simpl; eauto.
Qed.

End NeverRaise.

(** ** Lists *)

Lemma find_first {A} (f : A -> bool) (earlier : list A) (x : A) (later : list A) :
  (forall y, In y earlier -> f y = false) -> f x = true ->
  find f (earlier ++ x :: later) = Some x.
Proof.
  intros He Hx. induction earlier as [|y earlier IH]; simpl.
  - by rewrite Hx.
  - rewrite (He y) by (by left). apply IH. intros z Hz. apply He. by right.
Qed.

(** ** Feed parser *)

Lemma product_of_url (item : Element) :
  product_of item !! "url" =
  match link_value item with
  | Some url => if Str.startswith url "http" then Some url else None
  | None => None
  end.
Proof.
  unfold product_of, link_value.
  destruct (field_text "link" item) as [url|].
  - destruct (Str.startswith url "http").
    + apply lookup_insert_eq.
    + destruct (field_text "id" item), (field_text "title" item);
        by simplify_map_eq.
  - destruct (field_text "id" item), (field_text "title" item);
      by simplify_map_eq.
Qed.

Lemma append_product_accepted (products : list bag) (item : Element) :
  append_product products item =
  if accepted item then products ++ [product_of item] else products.
Proof.
  unfold append_product, accepted. rewrite product_of_url.
  destruct (link_value item) as [url|]; [|done].
  by destruct (Str.startswith url "http").
Qed.

Lemma fold_append_product (items : list Element) (products : list bag) :
  fold_left append_product items products =
  products ++ map product_of (List.filter accepted items).
Proof.
  revert products. induction items as [|item items IH]; intros products; simpl.
  - by rewrite app_nil_r.
  - rewrite IH, append_product_accepted.
    destruct (accepted item); simpl; [|done].
    by rewrite <- app_assoc.
Qed.

Lemma product_of_item_record (item : Element) : is_item_record (product_of item).
Proof.
  unfold is_item_record, product_of, item_keys.
  destruct (field_text "id" item), (field_text "title" item),
    (field_text "link" item) as [url|];
    try destruct (Str.startswith url "http");
    rewrite ?dom_insert_L, ?dom_empty_L; set_solver.
Qed.

(** ** Steps of the item processor *)

Lemma store_adds (key : string) (extracted : result (option string)) :
  adds_within {[ key ]} (store key extracted).
Proof.
  intros a a'. unfold store.
  destruct extracted as [e|[v|]]; [done| |];
    try destruct (Str.truthy v); intros [= <-];
    rewrite ?dom_insert_L; set_solver.
Qed.

Lemma update_adds (data : bag) : adds_within (dom data) (update (inr data)).
Proof.
  intros a a' [= <-]. rewrite dom_union_L. set_solver.
Qed.

Lemma update_raises_adds (e : exn) (keys : gset string) :
  adds_within keys (update (inl e)).
Proof. intros a a' [=]. Qed.

Lemma adds_within_mono (k1 k2 : gset string) (s : step) :
  k1 ⊆ k2 -> adds_within k1 s -> adds_within k2 s.
Proof.
  intros Hk Hs a a' Ha. destruct (Hs a a' Ha). set_solver.
Qed.

Lemma run_steps_app (l1 l2 : list step) (a : bag) :
  run_steps (l1 ++ l2) a =
  match run_steps l1 a with
  | (a', Some e) => (a', Some e)
  | (a', None) => run_steps l2 a'
  end.
Proof.
  revert a. induction l1 as [|s l1 IH]; intros a; simpl; [done|].
  destruct (s a); [done|]. apply IH.
Qed.

Lemma run_steps_adds (keys : gset string) (steps : list step) (a : bag) :
  Forall (adds_within keys) steps ->
  dom a ⊆ dom (run_steps steps a).1 /\
  dom (run_steps steps a).1 ⊆ dom a ∪ keys.
Proof.
  intros Hall. revert a.
  induction Hall as [|s steps Hs _ IH]; intros a; simpl; [set_solver|].
  destruct (s a) as [e|a'] eqn:Hsa; simpl; [set_solver|].
  destruct (Hs a a' Hsa), (IH a'). set_solver.
Qed.

Lemma run_steps_prefix (keys : gset string) (steps : list step) (n : nat) (a : bag) :
  Forall (adds_within keys) steps ->
  dom (run_steps (firstn n steps) a).1 ⊆ dom (run_steps steps a).1.
Proof.
  intros Hall. rewrite <- (firstn_skipn n steps) at 2.
  rewrite run_steps_app.
  destruct (run_steps (firstn n steps) a) as [a' [e|]]; simpl; [done|].
  apply (run_steps_adds keys).
  rewrite <- (firstn_skipn n steps) in Hall.
  by apply Forall_app in Hall as [_ ?].
Qed.

(** ** Table scan *)

Lemma table_row_entry (data : bag) (cells : list string) :
  table_row data cells =
  match row_entry cells with
  | Some (key, value) => <[key := value]> data
  | None => data
  end.
Proof.
  unfold table_row, row_entry, classify.
  destruct cells as [|cell0 [|cell1 cells]]; [done|done|].
  repeat match goal with
  | |- context [if ?b then _ else _] => destruct b; simpl; try done
  end.
Qed.

Lemma fold_tables (tables : list (list (list string))) (data : bag) :
  fold_left (fun data rows => fold_left table_row rows data) tables data =
  fold_left table_row (concat tables) data.
Proof.
  revert data. induction tables as [|rows tables IH]; intros data; simpl; [done|].
  by rewrite IH, fold_left_app.
Qed.

Lemma row_entry_key (cells : list string) (key value : string) :
  row_entry cells = Some (key, value) -> key ∈ table_keys.
Proof.
  unfold row_entry, classify, table_keys.
  destruct cells as [|cell0 [|cell1 cells]]; [done|done|].
  repeat match goal with
  | |- context [if ?b then _ else _] => destruct b; simpl
  end; intros [= <- _]; set_solver.
Qed.

Lemma fold_rows_dom (rows : list (list string)) (data : bag) :
  dom (fold_left table_row rows data) ⊆ dom data ∪ table_keys.
Proof.
  revert data. induction rows as [|cells rows IH]; intros data; simpl.
  - set_solver.
  - etrans; [apply IH|]. rewrite table_row_entry.
    destruct (row_entry cells) as [[key value]|] eqn:He; [|done].
    apply row_entry_key in He. rewrite dom_insert_L. set_solver.
Qed.

Lemma extract_table_data_dom (soup : Soup) :
  dom (extract_table_data soup) ⊆ table_keys.
Proof.
  unfold extract_table_data. rewrite fold_tables.
  etrans; [apply fold_rows_dom|]. rewrite dom_empty_L. set_solver.
Qed.

Lemma fold_rows_lookup (key : string) (rows : list (list string)) (data : bag) :
  fold_left table_row rows data !! key =
  match last (omap (fun cells =>
                      match row_entry cells with
                      | Some (k, v) => if String.eqb k key then Some v else None
                      | None => None
                      end) rows) with
  | Some v => Some v
  | None => data !! key
  end.
Proof.
  unfold omap. revert data.
  induction rows as [|cells rows IH]; intros data; simpl; [done|].
  rewrite IH, table_row_entry.
  destruct (row_entry cells) as [[k v]|]; [|done].
  destruct (String.eqb_spec k key) as [->|Hne]; simpl.
  - destruct (list_omap _ _ _ rows) as [|v' vs]; simpl.
    + apply lookup_insert_eq.
    + by destruct (last (v' :: vs)) eqn:Hl; [|apply last_None in Hl].
  - destruct (last _); [done|]. by apply lookup_insert_ne.
Qed.

Lemma extract_table_data_last (soup : Soup) (key : string) :
  extract_table_data soup !! key = last (qualifying_values key soup).
Proof.
  unfold extract_table_data, qualifying_values.
  rewrite fold_tables, fold_rows_lookup.
  destruct (last _); [done|]. apply lookup_empty.
Qed.

(** ** Item processor *)

Lemma extraction_steps_add (self : Self) (soup : Soup) (title : string) :
  exists keys, Forall (adds_within keys) (extraction_steps self soup title).
Proof.
  exists (list_to_set regex_keys ∪
          match self_extract_table_data self soup with
          | inr data => dom data
          | inl _ => ∅
          end).
  unfold extraction_steps.
  repeat (apply Forall_cons; split;
          [eapply adds_within_mono; [|apply store_adds]; set_solver|]).
  apply Forall_cons; split; [|constructor].
  destruct (self_extract_table_data self soup) as [e|data].
  - apply update_raises_adds.
  - eapply adds_within_mono; [|apply update_adds]. set_solver.
Qed.

Lemma scraper_steps_add (soup : Soup) (title : string) :
  Forall (adds_within (attribute_keys ∖ {["error"]}))
         (extraction_steps FeedAttributeScraper soup title).
Proof.
  unfold extraction_steps.
  repeat (apply Forall_cons; split;
          [eapply adds_within_mono; [|apply store_adds];
           unfold attribute_keys; set_solver|]).
  apply Forall_cons; split; [|constructor].
  eapply adds_within_mono; [|apply update_adds].
  pose proof (extract_table_data_dom soup).
  unfold attribute_keys, table_keys in *. set_solver.
Qed.

Lemma store_keywise key extracted : keywise (store key extracted).
Proof.
  intros a1 a2. unfold store.
  destruct extracted as [e|[v|]]; [done| |done].
  destruct (Str.truthy v); [|done].
  intros k Hk. destruct (decide (key = k)) as [->|Hne].
  - by rewrite !lookup_insert_eq.
  - by rewrite !lookup_insert_ne.
Qed.

Lemma update_keywise table_data : keywise (update table_data).
Proof.
  intros a1 a2. unfold update. destruct table_data as [e|data]; [done|].
  intros k Hk. rewrite !lookup_union. by rewrite Hk.
Qed.

Lemma extraction_steps_keywise self soup title :
  Forall keywise (extraction_steps self soup title).
Proof.
  unfold extraction_steps.
  repeat (apply Forall_cons; split; [apply store_keywise|]).
  apply Forall_cons; split; [apply update_keywise|constructor].
Qed.

Lemma run_steps_keywise (steps : list step) :
  Forall keywise steps ->
  forall a1 a2,
    (run_steps steps a1).2 = (run_steps steps a2).2 /\
    forall k, a1 !! k = a2 !! k ->
              (run_steps steps a1).1 !! k = (run_steps steps a2).1 !! k.
Proof.
  induction 1 as [|s steps Hs _ IH]; intros a1 a2; simpl; [done|].
  specialize (Hs a1 a2).
  destruct (s a1) as [e1|b1], (s a2) as [e2|b2]; simpl; try done.
  - by subst.
  - destruct (IH b1 b2) as [He Hk]. split; [done|]. intros k Hak. apply Hk. auto.
Qed.

Lemma scrape_fetched (self : Self) (net : network) (product_data : bag)
    (log : list event) (soup : Soup) :
  let url := default "" (product_data !! "url") in
  let title := default "" (product_data !! "title") in
  Str.truthy url = true -> net log url = inr soup ->
  scrape_product_attributes self net product_data log =
  match run_steps (extraction_steps self soup title) product_data with
  | (a, Some e) => (<["error" := error_text e]> a, log ++ [EvGet url])
  | (a, None) => (a, log ++ [EvGet url])
  end.
Proof.
  intros url title Hurl Hnet. unfold scrape_product_attributes.
  fold url title. by rewrite Hurl, Hnet.
Qed.

Lemma run_steps_update_last (steps : list step) (data a a' : bag) (key value : string) :
  run_steps (steps ++ [update (inr data)]) a = (a', None) ->
  data !! key = Some value -> a' !! key = Some value.
Proof.
  rewrite run_steps_app. destruct (run_steps steps a) as [a6 [e|]]; [done|].
  cbn. intros [= <-] Hk. by apply lookup_union_Some_l.
Qed.

Lemma regex_key_fresh (self : Self) (soup : Soup) (title : string)
    (product_data : bag) (n : nat) (key : string) :
  is_item_record product_data -> regex_keys !! n = Some key ->
  (run_steps (firstn n (extraction_steps self soup title)) product_data).1 !! key = None.
Proof.
  intros Hrec Hkey. apply not_elem_of_dom.
  unfold is_item_record, item_keys in Hrec.
  assert (Hin : forall keys : gset string,
             Forall (adds_within keys) (firstn n (extraction_steps self soup title)) ->
             key ∉ keys -> key ∉ item_keys ->
             key ∉ dom (run_steps (firstn n (extraction_steps self soup title))
                                  product_data).1).
  { intros keys Hall Hk Hi.
    pose proof (run_steps_adds keys _ product_data Hall) as [_ Hsup].
    unfold item_keys in Hi. set_solver. }
  unfold extraction_steps, regex_keys in *.
  do 6 (destruct n as [|n];
        [injection Hkey as <-;
         match goal with
         | |- ?k ∉ _ => apply (Hin (list_to_set regex_keys ∖ {[ k ]}))
         end;
         [cbn [firstn];
          repeat (apply Forall_cons; split;
                  [eapply adds_within_mono; [|apply store_adds];
                   cbn; set_solver|]);
          constructor
         |cbn; set_solver|unfold item_keys; set_solver]|]).
  done.
Qed.

(** ** Batch loop *)

Lemma process_from_spec (self : Self) (net : network) (delay_ms : Z) (total : nat)
    (products : list bag) :
  forall (i : nat) (all_attributes : list bag) (log : list event),
  exists bags,
    (process_from self net delay_ms total i products all_attributes log).1 =
    all_attributes ++ bags /\
    Forall2 (fun product attributes =>
               exists log', attributes =
                            (scrape_product_attributes self net product log').1)
            products bags.
Proof.
  induction products as [|product products IH]; intros i all_attributes log.
  - exists []. cbn. by rewrite app_nil_r.
  - cbn [process_from].
    destruct (scrape_product_attributes self net product log)
      as [attributes log1] eqn:Hscrape.
    destruct (IH (S i) (all_attributes ++ [attributes])
                 (if Nat.ltb i (total - 1) then log1 ++ [EvSleep delay_ms] else log1))
      as (bags & Hout & Hall).
    exists (attributes :: bags). split.
    + by rewrite Hout, <- app_assoc.
    + constructor; [|done]. exists log. by rewrite Hscrape.
Qed.

(** ** Case *)

Module CaseFacts.
Import Str Re Patterns.

Lemma is_word_to_lower (c : ascii) : is_word (to_lower c) = is_word c.
Proof.
  destruct c as [[] [] [] [] [] [] [] []]; reflexivity.
Qed.

Lemma chars_of_chars (l : list ascii) : chars (of_chars l) = l.
Proof. apply list_ascii_of_string_of_list_ascii. Qed.

Lemma chars_lower (s : string) : chars (lower s) = map to_lower (chars s).
Proof. apply chars_of_chars. Qed.

Lemma word_opt_last_lower (l : list ascii) :
  word_opt (last (map to_lower l)) = word_opt (last l).
Proof.
  destruct l as [|c l] using rev_ind; [done|].
  rewrite map_app. simpl. rewrite !last_snoc. apply is_word_to_lower.
Qed.

Lemma word_opt_head_lower (l : list ascii) :
  word_opt (head (map to_lower l)) = word_opt (head l).
Proof. destruct l as [|c l]; [done|]. apply is_word_to_lower. Qed.

Lemma boundary_lower (l r : list ascii) :
  boundary (map to_lower l) (map to_lower r) = boundary l r.
Proof.
  unfold boundary. by rewrite word_opt_last_lower, word_opt_head_lower.
Qed.

(** A lower-case word that stands in a text stands in the lowered text. *)
Lemma occurs_in_lowered (w s : string) :
  lower w = w -> occurs_as_whole_word w s -> occurs_as_whole_word w (lower s).
Proof.
  intros Hw (pre & post & Hs & Hb1 & Hb2).
  assert (Hcw : map to_lower (chars w) = chars w).
  { by rewrite <- chars_lower, Hw. }
  exists (map to_lower pre), (map to_lower post).
  rewrite chars_lower, Hs, !map_app, Hcw. split; [done|].
  rewrite <- Hcw at 1 2. rewrite <- !map_app, !boundary_lower. done.
Qed.

Lemma colours_lower_case : Forall (fun colour => lower colour = colour) colours.
Proof. repeat constructor. Qed.

End CaseFacts.

(** ** The request *)

Lemma raise_for_status_raises (response : Response) :
  (400 <= status_code response < 600)%Z ->
  exists msg, raise_for_status response = inl (RequestException msg).
Proof.
  intros [Hlo Hhi]. unfold raise_for_status.
  destruct (Z.leb_spec 400 (status_code response)); [|lia].
  destruct (Z.ltb_spec (status_code response) 500); cbn [andb]; [eauto|].
  destruct (Z.leb_spec 500 (status_code response)); [|lia].
  destruct (Z.ltb_spec (status_code response) 600); cbn [andb]; [eauto|lia].
Qed.

Lemma raise_for_status_returns (response : Response) :
  ~ (400 <= status_code response < 600)%Z -> raise_for_status response = inr tt.
Proof.
  intros Hout. unfold raise_for_status.
  destruct (Z.leb_spec 400 (status_code response));
    destruct (Z.ltb_spec (status_code response) 500); cbn [andb]; try lia;
    destruct (Z.leb_spec 500 (status_code response));
    destruct (Z.ltb_spec (status_code response) 600); cbn [andb]; try lia; done.
Qed.

(** The processor reads the network at the url of the record only. *)
Lemma scrape_net_ext (self : Self) (net1 net2 : network) (record : bag)
    (log : list event) :
  net1 log (default "" (record !! "url")) = net2 log (default "" (record !! "url")) ->
  scrape_product_attributes self net1 record log =
  scrape_product_attributes self net2 record log.
Proof. intros Heq. unfold scrape_product_attributes. by rewrite Heq. Qed.

Lemma scrape_request_exception
    (self : Self) (net : network) (product_data : bag) (log : list event) (msg : string) :
  let url := default "" (product_data !! "url") in
  Str.truthy url = true -> net log url = inl (RequestException msg) ->
  scrape_product_attributes self net product_data log =
  (<["error" := "Request error: " +:+ msg]> product_data, log ++ [EvGet url]).
Proof.
  intros url. unfold scrape_product_attributes. fold url. by intros -> ->.
Qed.

(** * The claims *)

Import Fixtures StatusFixtures.

(** C1 (scenario A).  The feed has one item, with link
    [http://example.com/p1] and title "Blue Cotton Scarf M"; the detail
    page has the text "Colour: Blue. Material: Cotton. Size: M. Weight:
    0.3 kg." and no table.  Then the feed parser yields one record, with
    that url and title, and the bag the item processor makes of it maps
    [color] to "Blue", [material] to "Cotton", [size] to "M" and [weight]
    to the matched text "Weight: 0.3 kg", and has no [error] key. *)
Theorem scenario_A_end_to_end
    (fromstring : string -> result Element) (xml_content : string)
    (net : network) (log : list event) (soup : Soup) :
  fromstring xml_content = inr ScenarioA.feed ->
  net log ScenarioA.url = inr soup ->
  get_text soup = ScenarioA.page_text ->
  find_all_table soup = [] ->
  exists product,
    (extract_products_from_xml fromstring xml_content).1 = [product] /\
    product !! "url" = Some ScenarioA.url /\
    product !! "title" = Some ScenarioA.title /\
    let out := (scrape_product_attributes FeedAttributeScraper net product log).1 in
    out !! "color" = Some "Blue" /\
    out !! "material" = Some "Cotton" /\
    out !! "size" = Some "M" /\
    out !! "weight" = Some "Weight: 0.3 kg" /\
    out !! "error" = None.
Proof.
  intros Hfeed Hnet Htext Htables.
  unfold extract_products_from_xml. rewrite Hfeed.
  set (product := <["url":=ScenarioA.url]> (<["title":=ScenarioA.title]> ∅) : bag).
  exists product. split; [vm_compute; reflexivity|].
  split; [by vm_compute|]. split; [by vm_compute|].
  assert (Hout : (scrape_product_attributes FeedAttributeScraper net product log).1 =
                 (scrape_product_attributes FeedAttributeScraper
                    (fun _ _ => inr (Build_Soup ScenarioA.page_text [] []))
                    product []).1).
  { unfold scrape_product_attributes.
    change (default "" (product !! "url")) with ScenarioA.url.
    rewrite Hnet. cbn [negb Str.truthy ScenarioA.url].
    unfold extraction_steps, FeedAttributeScraper, extract_table_data.
    cbn [self_extract_dimensions self_extract_weight self_extract_colour
         self_extract_material self_extract_pattern self_extract_size
         self_extract_table_data get_text find_all_table].
    rewrite Htext, Htables. unfold extract_colour.
    by destruct (run_steps _ _) as [a [e|]]. }
  cbv zeta. rewrite Hout. vm_compute. repeat split; reflexivity.
Qed.

(** C1 tried on a concrete input. *)
Lemma scenario_A_end_to_end_witness :
  exists product,
    (extract_products_from_xml (fun _ => inr ScenarioA.feed) "<rss/>").1 = [product] /\
    product !! "url" = Some ScenarioA.url /\
    product !! "title" = Some ScenarioA.title /\
    let out := (scrape_product_attributes FeedAttributeScraper net_ok product []).1 in
    out !! "color" = Some "Blue" /\
    out !! "material" = Some "Cotton" /\
    out !! "size" = Some "M" /\
    out !! "weight" = Some "Weight: 0.3 kg" /\
    out !! "error" = None.
Proof.
  apply (scenario_A_end_to_end (fun _ => inr ScenarioA.feed) "<rss/>" net_ok []
           ScenarioA.soup); reflexivity.
Defined.

(** C2.  The item processor is a total function to a bag: whatever the
    record, the network answer and the behaviour of the extractors
    (each may return or raise), it returns and raises nothing.  The keys
    of the record stay in the bag; so do the keys of every bag reached
    while the [try] block runs, in particular of the bag at the moment a
    statement raises; and an exception raised in the [try] block ends up
    as the one value of the [error] key. *)
Theorem item_processor_never_raises
    (self : Self) (net : network) (product_data : bag) (log : list event) :
  let url := default "" (product_data !! "url") in
  let title := default "" (product_data !! "title") in
  let out := (scrape_product_attributes self net product_data log).1 in
  dom product_data ⊆ dom out /\
  (forall soup n,
     Str.truthy url = true -> net log url = inr soup ->
     dom (run_steps (firstn n (extraction_steps self soup title)) product_data).1
       ⊆ dom out) /\
  (forall e, raised self net product_data log = Some e ->
             out !! "error" = Some (error_text e)).
Proof.
  intros url title out. subst out. unfold scrape_product_attributes, raised.
  fold url title. destruct (Str.truthy url) eqn:Hurl; cbn [negb].
  - destruct (net log url) as [e|soup] eqn:Hnet; cbn [fst].
    + split; [rewrite dom_insert_L; set_solver|]. split; [done|].
      intros e' [= <-]. apply lookup_insert_eq.
    + destruct (extraction_steps_add self soup title) as [keys Hkeys].
      pose proof (run_steps_adds keys _ product_data Hkeys) as [Hsub _].
      assert (Hpre : forall n,
                 dom (run_steps (firstn n (extraction_steps self soup title))
                                product_data).1
                 ⊆ dom (run_steps (extraction_steps self soup title)
                                  product_data).1).
      { intros n. by apply (run_steps_prefix keys). }
      destruct (run_steps (extraction_steps self soup title) product_data)
        as [a [e|]]; cbn [fst snd] in Hsub, Hpre |- *.
      * split; [rewrite dom_insert_L; set_solver|]. split.
        -- intros soup' n _ [= <-]. rewrite dom_insert_L.
           specialize (Hpre n). set_solver.
        -- intros e' [= <-]. apply lookup_insert_eq.
      * split; [done|]. split; [|done].
        intros soup' n _ [= <-]. apply Hpre.
  - cbn [fst]. split; [rewrite dom_insert_L; set_solver|]. split; [done|done].
Qed.

(** C2 tried on a concrete input. *)
Lemma item_processor_never_raises_witness :
  let out := (scrape_product_attributes raising_material net_ok ScenarioA.product []).1 in
  dom (run_steps (firstn 3 (extraction_steps raising_material ScenarioA.soup ScenarioA.title))
                 ScenarioA.product).1 ⊆ dom out /\
  out !! "error" = Some "Processing error: out of memory".
Proof.
  pose proof (item_processor_never_raises raising_material net_ok ScenarioA.product [])
    as H.
  cbv zeta in H. destruct H as (_ & H2 & H3). split.
  - apply (H2 ScenarioA.soup 3); reflexivity.
  - apply (H3 (OtherException "out of memory")). vm_compute. reflexivity.
Defined.

(** C3 (amended).  When the record has no url, or an empty one, the
    processor returns the record with the marker "No URL provided" and the
    log of requests is unchanged: no network call is made.  When the
    request raises a [RequestException] (time-out, connection failure), or
    returns a response with a status from 400 to 599, which
    [raise_for_status] rejects, the processor returns exactly the record
    plus the marker "Request error: ..."; no attribute is added.  A
    response with any other status, a success or not, is parsed and the
    attributes are extracted from it as from a success. *)
Theorem request_error_keeps_base_fields
    (self : Self) (get : list event -> string -> result Response)
    (BeautifulSoup : string -> result Soup) (product_data : bag) (log : list event) :
  let url := default "" (product_data !! "url") in
  let net := fetch get BeautifulSoup in
  (Str.truthy url = false ->
   scrape_product_attributes self net product_data log =
   (<["error" := "No URL provided"]> product_data, log)) /\
  (forall msg,
     Str.truthy url = true -> get log url = inl (RequestException msg) ->
     scrape_product_attributes self net product_data log =
     (<["error" := "Request error: " +:+ msg]> product_data, log ++ [EvGet url])) /\
  (forall response,
     Str.truthy url = true -> get log url = inr response ->
     (400 <= status_code response < 600)%Z ->
     exists msg,
       raise_for_status response = inl (RequestException msg) /\
       scrape_product_attributes self net product_data log =
       (<["error" := "Request error: " +:+ msg]> product_data, log ++ [EvGet url])) /\
  (forall response,
     Str.truthy url = true -> get log url = inr response ->
     ~ (400 <= status_code response < 600)%Z ->
     scrape_product_attributes self net product_data log =
     scrape_product_attributes self (fun _ _ => BeautifulSoup (content response))
       product_data log).
Proof.
  intros url net. split; [|split; [|split]].
  - intros Hurl. unfold scrape_product_attributes. fold url. by rewrite Hurl.
  - intros msg Hurl Hget. apply scrape_request_exception; [done|].
    unfold net, fetch. fold url. by rewrite Hget.
  - intros response Hurl Hget Hstatus.
    destruct (raise_for_status_raises response Hstatus) as [msg Hmsg].
    exists msg. split; [done|]. apply scrape_request_exception; [done|].
    unfold net, fetch. fold url. by rewrite Hget, Hmsg.
  - intros response Hurl Hget Hstatus. apply scrape_net_ext.
    unfold net, fetch. fold url.
    by rewrite Hget, (raise_for_status_returns response Hstatus).
Qed.

(** C3 (amended) tried on concrete inputs: no url, a time-out, a 404 and
    a 300. *)
Lemma request_error_keeps_base_fields_witness :
  scrape_product_attributes FeedAttributeScraper (fetch get_times_out parse_scenario)
    no_url [] = (<["error" := "No URL provided"]> no_url, []) /\
  scrape_product_attributes FeedAttributeScraper (fetch get_times_out parse_scenario)
    ScenarioA.product [] =
    (<["error" := "Request error: Read timed out."]> ScenarioA.product,
     [EvGet ScenarioA.url]) /\
  (exists msg,
     raise_for_status not_found = inl (RequestException msg) /\
     scrape_product_attributes FeedAttributeScraper (fetch get_not_found parse_scenario)
       ScenarioA.product [] =
     (<["error" := "Request error: " +:+ msg]> ScenarioA.product,
      [] ++ [EvGet ScenarioA.url])) /\
  scrape_product_attributes FeedAttributeScraper
    (fetch get_multiple_choices parse_scenario) ScenarioA.product [] =
  scrape_product_attributes FeedAttributeScraper
    (fun _ _ => parse_scenario (content multiple_choices)) ScenarioA.product [].
Proof.
  split; [|split; [|split]].
  - apply (proj1 (request_error_keeps_base_fields FeedAttributeScraper
                    get_times_out parse_scenario no_url [])).
    reflexivity.
  - apply (proj1 (proj2 (request_error_keeps_base_fields FeedAttributeScraper
                           get_times_out parse_scenario ScenarioA.product []))
                 "Read timed out."); reflexivity.
  - apply (proj1 (proj2 (proj2 (request_error_keeps_base_fields FeedAttributeScraper
                                  get_not_found parse_scenario ScenarioA.product [])))
                 not_found); [reflexivity|reflexivity|].
    simpl. lia.
  - apply (proj2 (proj2 (proj2 (request_error_keeps_base_fields FeedAttributeScraper
                                  get_multiple_choices parse_scenario
                                  ScenarioA.product [])))
                 multiple_choices); [reflexivity|reflexivity|].
    simpl. lia.
Defined.

(** C3 as the claim states it fails: the request returns a response with
    the status 300, which is not a 2xx status, and the processor attaches
    no error marker and adds the colour it extracts from the page. *)
Lemma non_2xx_status_counterexample :
  ~ (200 <= status_code multiple_choices < 300)%Z /\
  get_multiple_choices [] ScenarioA.url = inr multiple_choices /\
  ~ (exists msg,
       (scrape_product_attributes FeedAttributeScraper
          (fetch get_multiple_choices parse_scenario) ScenarioA.product []).1 =
       <["error" := "Request error: " +:+ msg]> ScenarioA.product) /\
  (scrape_product_attributes FeedAttributeScraper
     (fetch get_multiple_choices parse_scenario) ScenarioA.product []).1 !! "error"
    = None /\
  (scrape_product_attributes FeedAttributeScraper
     (fetch get_multiple_choices parse_scenario) ScenarioA.product []).1 !! "color"
    = Some "Blue".
Proof.
  assert (Herr : (scrape_product_attributes FeedAttributeScraper
     (fetch get_multiple_choices parse_scenario) ScenarioA.product []).1 !! "error"
       = None)
    by (vm_compute; reflexivity).
  split; [simpl; lia|]. split; [reflexivity|]. split; [|split].
  - intros [msg Heq]. rewrite Heq, lookup_insert_eq in Herr. discriminate Herr.
  - exact Herr.
  - vm_compute. reflexivity.
Qed.

(** C4.  (a) For every page and key, the table scan maps the key to the
    value of the last row filed under it, and to nothing when there is no
    such row.  (b) In the bag of a record of the feed parser (keys among
    [id], [title], [url]), each of the six pattern extractors stores under
    a key that is not yet in the bag: none overwrites.  (c) The table data
    are merged last: in the bag the processor returns for a fetched page,
    every key of the table data has the table's value, whatever the pattern
    extractors stored under it. *)
Theorem table_scan_last_row_and_precedence :
  (forall (soup : Soup) (key : string),
     extract_table_data soup !! key = last (qualifying_values key soup)) /\
  (forall (self : Self) (soup : Soup) (title : string) (product_data : bag)
          (n : nat) (key : string),
     is_item_record product_data -> regex_keys !! n = Some key ->
     (run_steps (firstn n (extraction_steps self soup title)) product_data).1
       !! key = None) /\
  (forall (net : network) (product_data : bag) (log : list event)
          (soup : Soup) (key value : string),
     Str.truthy (default "" (product_data !! "url")) = true ->
     net log (default "" (product_data !! "url")) = inr soup ->
     extract_table_data soup !! key = Some value ->
     (scrape_product_attributes FeedAttributeScraper net product_data log).1
       !! key = Some value).
Proof.
  split; [|split].
  - apply extract_table_data_last.
  - apply regex_key_fresh.
  - intros net product_data log soup key value Hurl Hnet Hkey.
    rewrite (scrape_fetched _ _ _ _ soup Hurl Hnet).
    destruct (scraper_steps_return soup (default "" (product_data !! "title"))
                product_data) as [a Hrun].
    rewrite Hrun. cbn [fst].
    eapply (run_steps_update_last
              (firstn 6 (extraction_steps FeedAttributeScraper soup
                           (default "" (product_data !! "title")))));
      [exact Hrun|exact Hkey].
Qed.

(** C4 tried on a concrete input. *)
Lemma table_scan_last_row_and_precedence_witness :
  (run_steps (firstn 5 (extraction_steps FeedAttributeScraper soup_with_table
                          ScenarioA.title)) ScenarioA.product).1 !! "size" = None /\
  (scrape_product_attributes FeedAttributeScraper net_table ScenarioA.product []).1
    !! "size" = Some "XL".
Proof.
  destruct table_scan_last_row_and_precedence as (_ & Hfresh & Htable). split.
  - apply Hfresh; [|reflexivity].
    apply (bool_decide_unpack _). vm_compute. exact I.
  - apply (Htable net_table ScenarioA.product [] soup_with_table); reflexivity.
Defined.

Section Colour.
Import Str Re Patterns ReFacts WordFacts CaseFacts.

(** C5.  [combined] is the lowered [title + " " + text] the last loop of
    [extract_colour] scans.  (a) When some colour of the vocabulary occurs
    as a whole word in [title + " " + text], as written or in whatever
    case, the extractor returns a capitalised colour of the vocabulary,
    never [None] and never an exception.  (b) When none of the three
    labelled patterns and not the RGB pattern matches, the extractor
    returns the first colour, in the order of the vocabulary list, that
    occurs as a whole word, wherever it stands in the text. *)
Theorem extract_colour_whole_word (text title : string) (soup : Soup) :
  let combined := lower (search_text title text) in
  ((exists colour, In colour colours /\
      (occurs_as_whole_word colour (search_text title text) \/
       occurs_as_whole_word colour combined)) ->
   exists colour, In colour colours /\
     extract_colour text soup title = inr (Some (capitalize colour))) /\
  ((forall p, In p colour_patterns -> search true p (search_text title text) = None) ->
   search true rgb_pattern text = None ->
   forall earlier colour later,
     colours = earlier ++ colour :: later ->
     occurs_as_whole_word colour combined ->
     (forall c, In c earlier -> ~ occurs_as_whole_word c combined) ->
     extract_colour text soup title = inr (Some (capitalize colour))).
Proof.
  intros combined. split.
  - intros (colour & Hin & Hocc).
    assert (Hlow : occurs_as_whole_word colour combined).
    { destruct Hocc as [Hocc|Hocc]; [|done]. apply occurs_in_lowered; [|done].
      exact (proj1 (List.Forall_forall _ _) colours_lower_case colour Hin). }
    clear Hocc. rename Hlow into Hocc.
    destruct (extract_colour_ok text soup title) as [Hnone|?]; [|done].
    exfalso. unfold extract_colour in Hnone.
    destruct (labelled_colour _ _) as [e|[c|]]; [done|done|].
    destruct (rgb_colour text); [done|].
    fold combined in Hnone.
    destruct (whole_word_colour false combined) eqn:Hfind; [done|].
    unfold whole_word_colour in Hfind.
    apply (find_none _ _ Hfind) in Hin.
    apply matches_whole_word in Hocc. congruence.
  - intros Hlab Hrgb earlier colour later Hsplit Hocc Hearlier.
    unfold extract_colour, rgb_colour.
    rewrite (labelled_colour_no_match _ _ Hlab), Hrgb.
    fold combined. unfold whole_word_colour. rewrite Hsplit.
    rewrite find_first; [done| |by apply matches_whole_word].
    intros c Hc. specialize (Hearlier c Hc).
    destruct (matches false (whole_word c) combined) eqn:Hm; [|done].
    by apply matches_whole_word in Hm.
Qed.
End Colour.

(** C5 tried on a concrete input. *)
Lemma extract_colour_whole_word_witness :
  (exists colour, In colour Patterns.colours /\
     extract_colour "a red and black thing" ScenarioA.soup "" =
     inr (Some (Str.capitalize colour))) /\
  extract_colour "a red and black thing" ScenarioA.soup "" = inr (Some "Black").
Proof.
  assert (Hocc : occurs_as_whole_word "black"
                   (Str.lower (search_text "" "a red and black thing"))).
  { exists (Str.chars " a red and "), (Str.chars " thing"). repeat split; reflexivity. }
  pose proof (extract_colour_whole_word "a red and black thing" "" ScenarioA.soup) as H.
  cbv zeta in H. destruct H as (Hany & Hfirst). split.
  - apply Hany. exists "black". split; [left; reflexivity|right; exact Hocc].
  - change "Black" with (Str.capitalize "black").
    apply (Hfirst) with (earlier := []) (later := tl Patterns.colours).
    + intros p [<-|[<-|[<-|[]]]]; reflexivity.
    + reflexivity.
    + reflexivity.
    + exact Hocc.
    + intros c [].
Defined.

(** C6.  For a feed that parses, the products are the records of the
    items with an accepted link (the trimmed text of the link element,
    starting with [http]), one per item and in document order; so there are
    as many products as accepted items.  The record of an accepted item has
    that link as its [url] and only keys among [id], [title], [url]; an item
    whose link is missing or not accepted has no [url] and is left out. *)
Theorem feed_parser_keeps_accepted_items
    (fromstring : string -> result Element) (xml_content : string) (root : Element) :
  fromstring xml_content = inr root ->
  let items := findall_descendants "item" root in
  let products := (extract_products_from_xml fromstring xml_content).1 in
  products = map product_of (List.filter accepted items) /\
  length products = length (List.filter accepted items) /\
  (forall item, In item items ->
     (accepted item = true ->
      product_of item !! "url" = link_value item /\ is_item_record (product_of item)) /\
     (accepted item = false -> product_of item !! "url" = None)).
Proof.
  intros Hparse items products. subst products.
  unfold extract_products_from_xml. rewrite Hparse. cbn [fst].
  fold items. rewrite fold_append_product. cbn [app].
  split; [done|]. split; [by rewrite length_map|].
  intros item _. rewrite product_of_url. unfold accepted.
  destruct (link_value item) as [url|]; [|done].
  destruct (Str.startswith url "http"); split; try done.
  intros _. split; [done|apply product_of_item_record].
Qed.

(** C6 tried on a concrete input. *)
Lemma feed_parser_keeps_accepted_items_witness :
  length (extract_products_from_xml (fun _ => inr feed_two) "<rss/>").1 = 1.
Proof.
  pose proof (feed_parser_keeps_accepted_items (fun _ => inr feed_two) "<rss/>"
                feed_two eq_refl) as H.
  cbv zeta in H. destruct H as (_ & H & _). exact H.
Defined.

(** C7.  When the XML parser rejects the input, the feed parser returns
    the empty list, raises nothing, and reports the error once through
    [st.error]; no item is recovered. *)
Theorem malformed_feed_yields_nothing
    (fromstring : string -> result Element) (xml_content : string) (e : exn) :
  fromstring xml_content = inl e ->
  exists msg,
    extract_products_from_xml fromstring xml_content =
    ([], [EvError ("Error parsing XML: " +:+ msg)]).
Proof.
  intros Hparse. unfold extract_products_from_xml. rewrite Hparse.
  destruct e as [msg|msg]; by exists msg.
Qed.

(** C7 tried on a concrete input. *)
Lemma malformed_feed_yields_nothing_witness :
  exists msg,
    extract_products_from_xml
      (fun _ => inl (OtherException "syntax error: line 1, column 0")) "not xml" =
    ([], [EvError ("Error parsing XML: " +:+ msg)]).
Proof.
  apply (malformed_feed_yields_nothing _ "not xml"
           (OtherException "syntax error: line 1, column 0")).
  reflexivity.
Defined.

(** C8.  A cap [max_urls] that is positive and below the number of
    products keeps exactly the first [max_urls] products; a cap of zero, or
    one that is not below that number, keeps them all.  The loop returns
    one bag per kept product, in order: the [i]-th bag is the processor's
    bag for the [i]-th kept product, whatever happened to the requests of
    the products before it. *)
Theorem batch_processes_every_item_after_cap
    (self : Self) (net : network) (delay_ms max_urls : Z) (products : list bag) :
  let kept := apply_limit max_urls products in
  let results := (process_products self net delay_ms max_urls products).1 in
  ((0 < max_urls < Z.of_nat (length products))%Z ->
   kept = firstn (Z.to_nat max_urls) products /\
   length kept = Z.to_nat max_urls) /\
  (max_urls = 0%Z \/ (Z.of_nat (length products) <= max_urls)%Z -> kept = products) /\
  length results = length kept /\
  Forall2 (fun product attributes =>
             exists log, attributes =
                         (scrape_product_attributes self net product log).1)
          kept results.
Proof.
  intros kept results. subst kept results. unfold process_products.
  split; [|split].
  - intros [Hpos Hlt]. unfold apply_limit.
    rewrite (proj2 (Z.ltb_lt _ _) Hpos), (proj2 (Z.ltb_lt _ _) Hlt). cbn [andb].
    split; [done|]. rewrite length_take. lia.
  - intros Hcap. unfold apply_limit.
    destruct (Z.ltb_spec 0 max_urls), (Z.ltb_spec max_urls (Z.of_nat (length products)));
      cbn [andb]; try done. lia.
  - destruct (process_from_spec self net delay_ms
                (length (apply_limit max_urls products))
                (apply_limit max_urls products) 0 [] []) as (bags & -> & Hall).
    cbn [app]. split; [|done]. symmetry. by eapply Forall2_length.
Qed.

(** C8 tried on a concrete input. *)
Lemma batch_processes_every_item_after_cap_witness :
  apply_limit 1 [ScenarioA.product; second_product] = [ScenarioA.product] /\
  length (process_products FeedAttributeScraper net_first_fails 500 1
            [ScenarioA.product; second_product]).1 = 1 /\
  apply_limit 0 [ScenarioA.product; second_product] =
    [ScenarioA.product; second_product].
Proof.
  pose proof (batch_processes_every_item_after_cap FeedAttributeScraper
                net_first_fails 500 1 [ScenarioA.product; second_product]) as H1.
  pose proof (batch_processes_every_item_after_cap FeedAttributeScraper
                net_first_fails 500 0 [ScenarioA.product; second_product]) as H0.
  cbv zeta in H1, H0.
  destruct H1 as (Hcap & _ & Hlen & _). destruct H0 as (_ & Hall & _).
  split; [|split].
  - apply Hcap. simpl. lia.
  - rewrite Hlen. reflexivity.
  - apply Hall. left. reflexivity.
Defined.

(** C9.  Two runs of the item processor that fetch the same page, for
    records with the same title, agree on every key on which the records
    agree, whatever the networks and what happened before; for one and
    the same record the two bags are equal.  The dimension extractor is a
    function of the text it searches, [title + " " + text]: on the same
    text it returns the same optional string. *)
Theorem extraction_is_deterministic
    (self : Self) (net1 net2 : network) (log1 log2 : list event)
    (record1 record2 : bag) (soup : Soup) :
  let out1 := (scrape_product_attributes self net1 record1 log1).1 in
  let out2 := (scrape_product_attributes self net2 record2 log2).1 in
  Str.truthy (default "" (record1 !! "url")) = true ->
  Str.truthy (default "" (record2 !! "url")) = true ->
  net1 log1 (default "" (record1 !! "url")) = inr soup ->
  net2 log2 (default "" (record2 !! "url")) = inr soup ->
  record1 !! "title" = record2 !! "title" ->
  (record1 = record2 -> out1 = out2) /\
  (forall key, record1 !! key = record2 !! key -> out1 !! key = out2 !! key) /\
  (forall text1 title1 text2 title2,
     search_text title1 text1 = search_text title2 text2 ->
     extract_dimensions text1 title1 = extract_dimensions text2 title2).
Proof.
  intros out1 out2 Hurl1 Hurl2 Hnet1 Hnet2 Htitle.
  assert (Hkey : forall key, record1 !! key = record2 !! key ->
                             out1 !! key = out2 !! key).
  { intros key Hk. subst out1 out2.
    rewrite (scrape_fetched _ _ _ _ soup Hurl1 Hnet1),
            (scrape_fetched _ _ _ _ soup Hurl2 Hnet2), Htitle.
    destruct (run_steps_keywise _
                (extraction_steps_keywise self soup (default "" (record2 !! "title")))
                record1 record2) as [He Hl].
    specialize (Hl key Hk).
    destruct (run_steps _ record1) as [a1 o1], (run_steps _ record2) as [a2 o2].
    cbn [fst snd] in *. subst o2. destruct o1 as [e|]; cbn [fst]; [|done].
    destruct (decide ("error" = key)) as [<-|Hne].
    - by rewrite !lookup_insert_eq.
    - by rewrite !lookup_insert_ne. }
  split; [|split].
  - intros Heq. apply map_eq. intros key. apply Hkey. by rewrite Heq.
  - exact Hkey.
  - intros text1 title1 text2 title2 Heq. unfold extract_dimensions. by rewrite Heq.
Qed.

(** C9 tried on a concrete input. *)
Lemma extraction_is_deterministic_witness :
  (scrape_product_attributes FeedAttributeScraper net_ok ScenarioA.product []).1 =
  (scrape_product_attributes FeedAttributeScraper net_first_fails ScenarioA.product
     [EvGet "http://example.com/p0"; EvSleep 500]).1.
Proof.
  apply (proj1 (extraction_is_deterministic FeedAttributeScraper
                  net_ok net_first_fails [] [EvGet "http://example.com/p0"; EvSleep 500]
                  ScenarioA.product ScenarioA.product ScenarioA.soup
                  eq_refl eq_refl eq_refl eq_refl eq_refl)).
  reflexivity.
Defined.

(** C10.  (a) The keys of a bag returned by the item processor are keys
    of the record or among [size_dimensions], [weight], [color],
    [material], [pattern], [size], [colour], [error].  (b) The table scan
    yields keys among [size], [weight], [colour], [material] only.
    (c) The processor's result does not depend on the GSM, identifier,
    motor, warranty and brand extractors: two scrapers with the same seven
    called methods give the same bag and the same log, so those five are
    never called and store nothing. *)
Theorem output_keys_are_bounded :
  (forall (net : network) (product_data : bag) (log : list event),
     dom (scrape_product_attributes FeedAttributeScraper net product_data log).1
       ⊆ dom product_data ∪ attribute_keys) /\
  (forall soup : Soup, dom (extract_table_data soup) ⊆ table_keys) /\
  (forall (a b : Self) (net : network) (product_data : bag) (log : list event),
     same_called_methods a b ->
     scrape_product_attributes a net product_data log =
     scrape_product_attributes b net product_data log).
Proof.
  split; [|split].
  - intros net product_data log. unfold scrape_product_attributes.
    destruct (Str.truthy _); cbn [negb].
    + destruct (net log _) as [e|soup]; cbn [fst].
      * rewrite dom_insert_L. unfold attribute_keys. set_solver.
      * pose proof (run_steps_adds _ _ product_data
                      (scraper_steps_add soup (default "" (product_data !! "title"))))
          as [_ Hsup].
        destruct (run_steps _ product_data) as [a [e|]]; cbn [fst] in Hsup |- *.
        -- rewrite dom_insert_L. unfold attribute_keys in *. set_solver.
        -- set_solver.
    + cbn [fst]. rewrite dom_insert_L. unfold attribute_keys. set_solver.
  - apply extract_table_data_dom.
  - intros a b net product_data log (H1 & H2 & H3 & H4 & H5 & H6 & H7).
    unfold scrape_product_attributes, extraction_steps.
    by rewrite H1, H2, H3, H4, H5, H6, H7.
Qed.

(** C10 tried on a concrete input. *)
Lemma output_keys_are_bounded_witness :
  scrape_product_attributes FeedAttributeScraper net_ok ScenarioA.product [] =
  scrape_product_attributes raising_uncalled net_ok ScenarioA.product [].
Proof.
  apply (proj2 (proj2 output_keys_are_bounded)).
  repeat split; reflexivity.
Defined.

(** * Further properties *)

(** ** Trimming *)

Module StripFacts.
Import Str CaseFacts.

Lemma of_chars_chars (s : string) : of_chars (chars s) = s.
Proof. apply string_of_list_ascii_of_string. Qed.

Lemma lstrip_split (l : list ascii) :
  exists blanks, l = blanks ++ lstrip_chars l /\ forallb is_space blanks = true.
Proof.
  induction l as [|c l (blanks & Hl & Hb)]; simpl.
  - by exists [].
  - destruct (is_space c) eqn:Hc.
    + exists (c :: blanks). simpl. rewrite Hc. split; [by f_equal|done].
    + by exists [].
Qed.

Lemma lstrip_head (l : list ascii) (c : ascii) :
  head (lstrip_chars l) = Some c -> is_space c = false.
Proof.
  induction l as [|d l IH]; simpl; [done|].
  destruct (is_space d) eqn:Hd; [done|]. by intros [= <-].
Qed.

Lemma lstrip_fixed (l : list ascii) :
  (forall c, head l = Some c -> is_space c = false) -> lstrip_chars l = l.
Proof.
  destruct l as [|c l]; [done|]. simpl. intros H. by rewrite (H c eq_refl).
Qed.

Lemma lstrip_lstrip (l : list ascii) : lstrip_chars (lstrip_chars l) = lstrip_chars l.
Proof. apply lstrip_fixed, lstrip_head. Qed.

Lemma lstrip_last (l : list ascii) (c : ascii) :
  last (lstrip_chars l) = Some c -> last l = Some c.
Proof.
  destruct (lstrip_split l) as (blanks & Hl & _). intros Hc.
  rewrite Hl. destruct (lstrip_chars l) as [|d k]; [done|].
  by rewrite last_app, Hc.
Qed.

Lemma head_rev (l : list ascii) : head (rev l) = last l.
Proof.
  destruct l as [|c l] using rev_ind; [done|].
  by rewrite rev_app_distr, last_snoc.
Qed.

Lemma last_rev (l : list ascii) : last (rev l) = head l.
Proof. by rewrite <- head_rev, rev_involutive. Qed.

(** Neither end of a trimmed text is blank. *)
Lemma strip_chars_ends (l : list ascii) :
  (forall c, head (strip_chars l) = Some c -> is_space c = false) /\
  (forall c, last (strip_chars l) = Some c -> is_space c = false).
Proof.
  unfold strip_chars. split; intros c.
  - rewrite head_rev. intros Hc. apply lstrip_last in Hc.
    rewrite last_rev in Hc. by apply lstrip_head in Hc.
  - rewrite last_rev. apply lstrip_head.
Qed.

Lemma strip_chars_fixed (l : list ascii) :
  (forall c, head l = Some c -> is_space c = false) ->
  (forall c, last l = Some c -> is_space c = false) ->
  strip_chars l = l.
Proof.
  intros Hh Hl. unfold strip_chars.
  rewrite (lstrip_fixed l Hh), lstrip_fixed, rev_involutive; [done|].
  intros c. rewrite head_rev. apply Hl.
Qed.

Lemma strip_chars_idem (l : list ascii) : strip_chars (strip_chars l) = strip_chars l.
Proof. destruct (strip_chars_ends l). by apply strip_chars_fixed. Qed.

(** [s.strip().strip() == s.strip()] *)
Lemma strip_idem (s : string) : strip (strip s) = strip s.
Proof. unfold strip. by rewrite chars_of_chars, strip_chars_idem. Qed.

(** A trimmed text is a piece of the text. *)
Lemma strip_chars_infix (l : list ascii) :
  exists pre post, l = pre ++ strip_chars l ++ post.
Proof.
  unfold strip_chars.
  destruct (lstrip_split l) as (b1 & H1 & _).
  destruct (lstrip_split (rev (lstrip_chars l))) as (b2 & H2 & _).
  exists b1, (rev b2). rewrite H1 at 1. f_equal.
  rewrite <- rev_app_distr, <- H2. by rewrite rev_involutive.
Qed.

Lemma startswith_truthy (s p : string) :
  truthy p = true -> startswith s p = true -> truthy s = true.
Proof.
  unfold startswith, chars. destruct p as [|a p]; [done|]. intros _.
  destruct s as [|b s]; [done|done].
Qed.

End StripFacts.

(** ** Feed parser: fields *)

Section FeedFields.
Import StripFacts.

Lemma field_text_trimmed (name : string) (item : Element) (v : string) :
  field_text name item = Some v -> Str.strip v = v.
Proof.
  unfold field_text. destruct (find_field name item) as [e|]; [|done].
  destruct (text e) as [t|]; [|done]. destruct (Str.truthy t); [|done].
  intros [= <-]. apply strip_idem.
Qed.

Lemma product_of_lookup (item : Element) (key v : string) :
  product_of item !! key = Some v ->
  (key = "id" /\ field_text "id" item = Some v) \/
  (key = "title" /\ field_text "title" item = Some v) \/
  (key = "url" /\ field_text "link" item = Some v /\ Str.startswith v "http" = true).
Proof.
  unfold product_of.
  destruct (field_text "id" item) as [i|], (field_text "title" item) as [t|],
    (field_text "link" item) as [u|];
    try destruct (Str.startswith u "http") eqn:Hu;
    intros H;
    repeat match type of H with
    | <[?k := _]> _ !! key = Some _ =>
        destruct (decide (k = key)) as [<-|?];
        [rewrite lookup_insert_eq in H; injection H as <-; eauto 6
        |rewrite lookup_insert_ne in H by done]
    end; by rewrite ?lookup_empty in H.
Qed.

(** X1.  The lookup of a feed field is two-tier.  A namespaced child
    that is present decides alone: with no text, or an empty one, the field
    is absent even when a bare child carries a value; with a text, the
    field is that text trimmed.  Only when there is no namespaced child is
    the bare child read.  So an item with an empty namespaced link and a
    valid bare link is not accepted and gets no [url]. *)
Theorem namespaced_field_shadows_bare_field (name : string) (item : Element) :
  (forall e, find_child (g_namespace +:+ name) item = Some e ->
     (text e = None \/ text e = Some "") -> field_text name item = None) /\
  (forall e t, find_child (g_namespace +:+ name) item = Some e ->
     text e = Some t -> Str.truthy t = true ->
     field_text name item = Some (Str.strip t)) /\
  (forall e t, find_child (g_namespace +:+ name) item = None ->
     find_child name item = Some e -> text e = Some t -> Str.truthy t = true ->
     field_text name item = Some (Str.strip t)) /\
  (forall e, find_child (g_namespace +:+ "link") item = Some e ->
     (text e = None \/ text e = Some "") ->
     accepted item = false /\ product_of item !! "url" = None).
Proof.
  assert (Hshadow : forall nm e, find_child (g_namespace +:+ nm) item = Some e ->
            (text e = None \/ text e = Some "") -> field_text nm item = None).
  { intros nm e He Ht. unfold field_text, find_field. rewrite He.
    by destruct Ht as [->| ->]. }
  split; [apply Hshadow|]. split; [|split].
  - intros e t He Ht Htr. unfold field_text, find_field. by rewrite He, Ht, Htr.
  - intros e t Hg He Ht Htr. unfold field_text, find_field. by rewrite Hg, He, Ht, Htr.
  - intros e He Ht. rewrite product_of_url. unfold accepted, link_value.
    by rewrite (Hshadow "link" e He Ht).
Qed.

Lemma parsed_product_facts
    (fromstring : string -> result Element) (xml_content : string) (product : bag) :
  In product (extract_products_from_xml fromstring xml_content).1 ->
  (exists url, product !! "url" = Some url /\
               Str.startswith url "http" = true /\ Str.truthy url = true) /\
  (forall key v, product !! key = Some v -> Str.strip v = v) /\
  is_item_record product.
Proof.
  unfold extract_products_from_xml.
  destruct (fromstring xml_content) as [e|root]; [done|]. cbn [fst].
  rewrite fold_append_product. cbn [app]. intros Hin.
  apply in_map_iff in Hin as (item & <- & Hitem).
  apply filter_In in Hitem as [_ Hacc].
  split; [|split].
  - rewrite product_of_url. unfold accepted in Hacc.
    destruct (link_value item) as [url|]; [|done]. rewrite Hacc.
    exists url. split; [done|]. split; [done|].
    by apply (startswith_truthy url "http").
  - intros key v Hv.
    apply product_of_lookup in Hv as [[_ H]|[[_ H]|[_ [H _]]]];
      by apply field_text_trimmed in H.
  - apply product_of_item_record.
Qed.

(** X2.  Every record the feed parser returns has a [url] that starts
    with [http], hence is not empty; every value of the record is trimmed
    (stripping it again changes nothing); and its keys are among [id],
    [title], [url]. *)
Theorem products_are_trimmed_and_have_http_url
    (fromstring : string -> result Element) (xml_content : string) (product : bag) :
  In product (extract_products_from_xml fromstring xml_content).1 ->
  (exists url, product !! "url" = Some url /\
               Str.startswith url "http" = true /\ Str.truthy url = true) /\
  (forall key v, product !! key = Some v -> Str.strip v = v) /\
  is_item_record product.
Proof. apply parsed_product_facts. Qed.
End FeedFields.

(** ** The bag of a fetched page *)

Lemma store_returns (key : string) (o : option string) (a : bag) :
  store key (inr o) a =
  inr (match stored_value (inr o) with
       | Some v => <[key := v]> a
       | None => a
       end).
Proof. unfold store, stored_value. destruct o as [v|]; [|done]. by destruct (Str.truthy v). Qed.

Lemma stored_lookup (key : string) (o : option string) (a : bag) (k : string) :
  match o with
  | Some v => <[key := v]> a
  | None => a
  end !! k =
  if String.eqb k key then
    match o with
    | Some v => Some v
    | None => a !! k
    end
  else a !! k.
Proof.
  destruct (String.eqb_spec k key) as [->|Hne].
  - destruct o; [apply lookup_insert_eq|done].
  - destruct o; [by apply lookup_insert_ne|done].
Qed.

Lemma update_lookup (data a : bag) (k : string) :
  (data ∪ a) !! k =
  match data !! k with
  | Some v => Some v
  | None => a !! k
  end.
Proof.
  destruct (data !! k) as [v|] eqn:Hk.
  - by apply lookup_union_Some_l.
  - by apply lookup_union_r.
Qed.

Lemma scraper_bag_lookup (soup : Soup) (title : string) (record : bag) (key : string) :
  exists a,
    run_steps (extraction_steps FeedAttributeScraper soup title) record = (a, None) /\
    a !! key =
    match extract_table_data soup !! key with
    | Some v => Some v
    | None =>
        match pattern_value soup title key with
        | Some v => Some v
        | None => record !! key
        end
    end.
Proof.
  unfold extraction_steps, pattern_value. cbn [FeedAttributeScraper
    self_extract_dimensions self_extract_weight self_extract_colour
    self_extract_material self_extract_pattern self_extract_size
    self_extract_table_data].
  destruct (extract_colour_ok (get_text soup) soup title) as [Hc|(colour & _ & Hc)];
  destruct (extract_material_ok (get_text soup)) as [om Hm];
  destruct (extract_pattern_ok (get_text soup)) as [op Hp];
  rewrite Hc, Hm, Hp; clear Hc Hm Hp;
  generalize (extract_dimensions (get_text soup) title) as od;
  generalize (extract_weight (get_text soup)) as ow;
  generalize (extract_size (get_text soup) title) as os;
  generalize (extract_table_data soup) as data;
  intros data os ow od;
  cbn [run_steps]; rewrite !store_returns; cbn [update];
  (eexists; split; [reflexivity|]);
  rewrite update_lookup;
  (destruct (data !! key) as [v|]; [done|]);
  rewrite !stored_lookup;
  (destruct (String.eqb_spec key "size") as [->|?];
     [cbn; by repeat case_match|]);
  (destruct (String.eqb_spec key "pattern") as [->|?];
     [cbn; by repeat case_match|]);
  (destruct (String.eqb_spec key "material") as [->|?];
     [cbn; by repeat case_match|]);
  (destruct (String.eqb_spec key "color") as [->|?];
     [cbn; by repeat case_match|]);
  (destruct (String.eqb_spec key "weight") as [->|?];
     [cbn; by repeat case_match|]);
  (destruct (String.eqb_spec key "size_dimensions") as [->|?];
     [cbn; by repeat case_match|]);
  done.
Qed.

Lemma scrape_scraper_fetched (net : network) (record : bag) (log : list event)
    (soup : Soup) (key : string) :
  Str.truthy (default "" (record !! "url")) = true ->
  net log (default "" (record !! "url")) = inr soup ->
  (scrape_product_attributes FeedAttributeScraper net record log).1 !! key =
  match extract_table_data soup !! key with
  | Some v => Some v
  | None =>
      match pattern_value soup (default "" (record !! "title")) key with
      | Some v => Some v
      | None => record !! key
      end
  end.
Proof.
  intros Hurl Hnet. rewrite (scrape_fetched _ _ _ _ soup Hurl Hnet).
  destruct (scraper_bag_lookup soup (default "" (record !! "title")) record key)
    as (a & -> & Ha).
  exact Ha.
Qed.

Lemma pattern_value_key (soup : Soup) (title key v : string) :
  pattern_value soup title key = Some v -> In key regex_keys.
Proof.
  unfold pattern_value, regex_keys.
  destruct (String.eqb_spec key "size_dimensions") as [->|?]; [intros _; simpl; tauto|].
  destruct (String.eqb_spec key "weight") as [->|?]; [intros _; simpl; tauto|].
  destruct (String.eqb_spec key "color") as [->|?]; [intros _; simpl; tauto|].
  destruct (String.eqb_spec key "material") as [->|?]; [intros _; simpl; tauto|].
  destruct (String.eqb_spec key "pattern") as [->|?]; [intros _; simpl; tauto|].
  destruct (String.eqb_spec key "size") as [->|?]; [intros _; simpl; tauto|].
  done.
Qed.

Lemma stored_value_truthy (r : result (option string)) (v : string) :
  stored_value r = Some v -> Str.truthy v = true.
Proof.
  unfold stored_value. destruct r as [e|[w|]]; [done| |done].
  destruct (Str.truthy w) eqn:Hw; [|done]. by intros [= <-].
Qed.

Lemma pattern_value_truthy (soup : Soup) (title key v : string) :
  pattern_value soup title key = Some v -> Str.truthy v = true.
Proof.
  unfold pattern_value.
  destruct (String.eqb key "size_dimensions"); [apply stored_value_truthy|].
  destruct (String.eqb key "weight"); [apply stored_value_truthy|].
  destruct (String.eqb key "color"); [apply stored_value_truthy|].
  destruct (String.eqb key "material"); [apply stored_value_truthy|].
  destruct (String.eqb key "pattern"); [apply stored_value_truthy|].
  destruct (String.eqb key "size"); [apply stored_value_truthy|].
  done.
Qed.

Lemma scraper_keeps_other_keys
    (net : network) (record : bag) (log : list event) (key : string) :
  key ∉ attribute_keys ->
  (scrape_product_attributes FeedAttributeScraper net record log).1 !! key =
  record !! key.
Proof.
  intros Hkey.
  assert (Herr : key <> "error") by (unfold attribute_keys in Hkey; set_solver).
  destruct (Str.truthy (default "" (record !! "url"))) eqn:Hurl.
  - destruct (net log (default "" (record !! "url"))) as [e|soup] eqn:Hnet.
    + unfold scrape_product_attributes. rewrite Hurl, Hnet. cbn [negb fst].
      by apply lookup_insert_ne.
    + rewrite (scrape_scraper_fetched net record log soup key Hurl Hnet).
      destruct (extract_table_data soup !! key) as [v|] eqn:Ht.
      { exfalso. pose proof (extract_table_data_dom soup) as Hdom.
        assert (key ∈ dom (extract_table_data soup)) by (apply elem_of_dom; eauto).
        unfold attribute_keys, table_keys in *. set_solver. }
      destruct (pattern_value _ _ key) as [v|] eqn:Hp; [|done].
      exfalso. apply pattern_value_key in Hp.
      unfold attribute_keys, regex_keys in *. simpl in Hp.
      set_solver.
  - unfold scrape_product_attributes. rewrite Hurl. cbn [negb fst].
    by apply lookup_insert_ne.
Qed.

Lemma scraper_error_lookup (net : network) (record : bag) (log : list event) :
  let url := default "" (record !! "url") in
  (scrape_product_attributes FeedAttributeScraper net record log).1 !! "error" =
  if Str.truthy url then
    match net log url with
    | inl e => Some (error_text e)
    | inr _ => record !! "error"
    end
  else Some "No URL provided".
Proof.
  intros url. subst url.
  destruct (Str.truthy (default "" (record !! "url"))) eqn:Hurl.
  - destruct (net log (default "" (record !! "url"))) as [e|soup] eqn:Hnet.
    + unfold scrape_product_attributes. rewrite Hurl, Hnet. cbn [negb fst].
      apply lookup_insert_eq.
    + rewrite (scrape_scraper_fetched net record log soup "error" Hurl Hnet).
      destruct (extract_table_data soup !! "error") as [v|] eqn:Ht.
      { exfalso. pose proof (extract_table_data_dom soup) as Hdom.
        assert ("error" ∈ dom (extract_table_data soup)) by (apply elem_of_dom; eauto).
        unfold table_keys in *. set_solver. }
      done.
  - unfold scrape_product_attributes. rewrite Hurl. cbn [negb fst].
    apply lookup_insert_eq.
Qed.

(** X6.  For a fetched page and the class as written, every key of the
    returned bag is given by: the table value if the table scan has one,
    else the non-empty value of the pattern extractor of that key, else
    the record's value.  So a value stored by a pattern extractor is never
    the empty string; and [color] comes from the colour extractor or the
    record only: the table scan files colours under [colour], and never
    reaches [color]. *)
Theorem fetched_bag_by_key (net : network) (record : bag) (log : list event)
    (soup : Soup) :
  let url := default "" (record !! "url") in
  let title := default "" (record !! "title") in
  let out := (scrape_product_attributes FeedAttributeScraper net record log).1 in
  Str.truthy url = true -> net log url = inr soup ->
  (forall key,
     out !! key =
     match extract_table_data soup !! key with
     | Some v => Some v
     | None =>
         match pattern_value soup title key with
         | Some v => Some v
         | None => record !! key
         end
     end) /\
  (forall key v,
     In key regex_keys -> extract_table_data soup !! key = None ->
     record !! key = None -> out !! key = Some v -> Str.truthy v = true) /\
  out !! "color" =
    match pattern_value soup title "color" with
    | Some v => Some v
    | None => record !! "color"
    end.
Proof.
  intros url title out Hurl Hnet.
  assert (Hall : forall key,
     out !! key =
     match extract_table_data soup !! key with
     | Some v => Some v
     | None =>
         match pattern_value soup title key with
         | Some v => Some v
         | None => record !! key
         end
     end).
  { intros key. by apply scrape_scraper_fetched. }
  split; [exact Hall|]. split.
  - intros key v _ Ht Hr. rewrite Hall, Ht, Hr.
    destruct (pattern_value soup title key) as [w|] eqn:Hp; [|done].
    intros [= <-]. by apply pattern_value_truthy in Hp.
  - rewrite Hall.
    destruct (extract_table_data soup !! "color") as [v|] eqn:Ht; [|done].
    exfalso. pose proof (extract_table_data_dom soup) as Hdom.
    assert ("color" ∈ dom (extract_table_data soup)) by (apply elem_of_dom; eauto).
    unfold table_keys in *. set_solver.
Qed.

Lemma error_text_not_no_url (e : exn) : error_text e <> "No URL provided".
Proof. by destruct e. Qed.

(** X4.  With the class as written, a key outside the eight attribute
    keys ([id], [title], [url] among them) has in the returned bag the
    value it has in the record, on every path: no url, failed request,
    fetched page. *)
Theorem base_fields_are_carried_through
    (net : network) (record : bag) (log : list event) (key : string) :
  key ∉ attribute_keys ->
  (scrape_product_attributes FeedAttributeScraper net record log).1 !! key =
  record !! key.
Proof. apply scraper_keeps_other_keys. Qed.

(** X5.  With the class as written, the [error] key of the returned bag
    is: "No URL provided" when the url is missing or empty; the text of the
    exception when the request or the parsing of the page raises; and
    otherwise what the record had under [error].  So the extractors as
    written never produce a marker, and a marker the record came with is
    kept on success. *)
Theorem error_marker_origin (net : network) (record : bag) (log : list event) :
  let url := default "" (record !! "url") in
  (scrape_product_attributes FeedAttributeScraper net record log).1 !! "error" =
  if Str.truthy url then
    match net log url with
    | inl e => Some (error_text e)
    | inr _ => record !! "error"
    end
  else Some "No URL provided".
Proof. apply scraper_error_lookup. Qed.

(** X3.  For a record of the feed parser, the item processor makes
    exactly one request, to the record's [url], whatever the extractors
    do; with the class as written the [url] stays in the bag and the
    marker is never "No URL provided". *)
Theorem parsed_product_is_requested_once
    (fromstring : string -> result Element) (xml_content : string)
    (net : network) (product : bag) (log : list event) :
  In product (extract_products_from_xml fromstring xml_content).1 ->
  exists url,
    product !! "url" = Some url /\
    (forall self : Self,
       (scrape_product_attributes self net product log).2 = log ++ [EvGet url]) /\
    (scrape_product_attributes FeedAttributeScraper net product log).1 !! "url"
      = Some url /\
    (scrape_product_attributes FeedAttributeScraper net product log).1 !! "error"
      <> Some "No URL provided".
Proof.
  intros Hin.
  destruct (parsed_product_facts _ _ _ Hin)
    as ((url & Hurl & _ & Htruthy) & _ & Hrec).
  assert (Hd : default "" (product !! "url") = url) by (by rewrite Hurl).
  exists url. split; [done|]. split; [|split].
  - intros self. unfold scrape_product_attributes. rewrite Hd, Htruthy. cbn [negb].
    destruct (net log url); [done|]. by destruct (run_steps _ _) as [a [e|]].
  - rewrite scraper_keeps_other_keys; [done|].
    unfold attribute_keys. set_solver.
  - pose proof (scraper_error_lookup net product log) as Herr. cbv zeta in Herr.
    rewrite Herr, Hd, Htruthy.
    destruct (net log url) as [e|soup].
    + intros [= He]. by apply error_text_not_no_url in He.
    + assert (product !! "error" = None) as ->; [|done].
      apply not_elem_of_dom. unfold is_item_record, item_keys in Hrec. set_solver.
Qed.

(** ** Table rows *)

Lemma table_row_two_cells (data : bag) (cells : list string) :
  table_row data cells =
  match cells with
  | cell0 :: cell1 :: _ => table_row data [cell0; cell1]
  | _ => data
  end.
Proof. by destruct cells as [|c0 [|c1 cells]]. Qed.

Lemma fold_rows_two_cells (rows : list (list string)) (data : bag) :
  fold_left table_row rows data =
  fold_left (fun data '(cell0, cell1) => table_row data [cell0; cell1])
            (omap (fun cells =>
                     match cells with
                     | cell0 :: cell1 :: _ => Some (cell0, cell1)
                     | _ => None
                     end) rows) data.
Proof.
  unfold omap. revert data. induction rows as [|cells rows IH]; intros data; [done|].
  cbn [fold_left list_omap]. rewrite IH, table_row_two_cells.
  by destruct cells as [|c0 [|c1 cells]].
Qed.

Lemma table_data_two_cells (soup : Soup) :
  extract_table_data soup =
  fold_left (fun data '(cell0, cell1) => table_row data [cell0; cell1])
            (two_cell_rows soup) ∅.
Proof.
  unfold extract_table_data, two_cell_rows. by rewrite fold_tables, fold_rows_two_cells.
Qed.

Lemma fold_rows_trimmed (rows : list (list string)) (data : bag) :
  (forall key v, data !! key = Some v -> Str.strip v = v) ->
  forall key v, fold_left table_row rows data !! key = Some v -> Str.strip v = v.
Proof.
  revert data. induction rows as [|cells rows IH]; intros data Hdata; [done|].
  cbn [fold_left]. apply IH. intros key v. rewrite table_row_entry.
  destruct (row_entry cells) as [[k w]|] eqn:He; [|apply Hdata].
  destruct (decide (k = key)) as [->|Hne].
  - rewrite lookup_insert_eq. intros [= <-].
    unfold row_entry in He. destruct cells as [|c0 [|c1 cells]]; [done|done|].
    destruct (classify _); [|done]. injection He as _ <-.
    apply StripFacts.strip_idem.
  - rewrite lookup_insert_ne by done. apply Hdata.
Qed.

(** X7.  The table scan depends on the page only through the first two
    cells of the rows with two cells or more, all tables taken in order:
    shorter rows, further cells and the grouping of rows into tables do
    not matter.  Every value it yields is trimmed, and a page without such
    a row yields the empty mapping. *)
Theorem table_scan_reads_two_cells :
  (forall soup1 soup2 : Soup,
     two_cell_rows soup1 = two_cell_rows soup2 ->
     extract_table_data soup1 = extract_table_data soup2) /\
  (forall (soup : Soup) (key v : string),
     extract_table_data soup !! key = Some v -> Str.strip v = v) /\
  (forall soup : Soup, two_cell_rows soup = [] -> extract_table_data soup = ∅).
Proof.
  split; [|split].
  - intros soup1 soup2 Heq. by rewrite !table_data_two_cells, Heq.
  - intros soup key v. unfold extract_table_data. rewrite fold_tables.
    apply fold_rows_trimmed. intros k w. by rewrite lookup_empty.
  - intros soup Heq. by rewrite table_data_two_cells, Heq.
Qed.

(** ** The cap *)

(** X8.  The cap keeps a prefix of the products; it empties the list
    only when the list is empty; for a positive cap the number kept is the
    smaller of the cap and the number of products; a cap of zero or below
    keeps everything; and applying the cap twice is applying it once. *)
Theorem apply_limit_keeps_a_prefix (max_urls : Z) (products : list bag) :
  (exists dropped, products = apply_limit max_urls products ++ dropped) /\
  (apply_limit max_urls products = [] <-> products = []) /\
  ((0 < max_urls)%Z ->
   length (apply_limit max_urls products) =
   Nat.min (Z.to_nat max_urls) (length products)) /\
  ((max_urls <= 0)%Z -> apply_limit max_urls products = products) /\
  apply_limit max_urls (apply_limit max_urls products) = apply_limit max_urls products.
Proof.
  unfold apply_limit.
  destruct (Z.ltb_spec 0 max_urls) as [Hpos|Hneg];
    destruct (Z.ltb_spec max_urls (Z.of_nat (length products))) as [Hlt|Hge];
    cbn [andb].
  - split; [|split; [|split; [|split]]].
    + exists (skipn (Z.to_nat max_urls) products). by rewrite firstn_skipn.
    + destruct products as [|p products]; [simpl in Hlt; lia|].
      split; [|done]. destruct (Z.to_nat max_urls) eqn:Hn; [lia|done].
    + intros _. rewrite length_take. lia.
    + lia.
    + rewrite length_take.
      destruct (Z.ltb_spec max_urls
                  (Z.of_nat (Nat.min (Z.to_nat max_urls) (length products))));
        [lia|done].
  - split; [|split; [|split; [|split]]].
    + exists []. by rewrite app_nil_r.
    + done.
    + intros _. lia.
    + done.
    + destruct (Z.ltb_spec max_urls (Z.of_nat (length products))); [lia|done].
  - split; [|split; [|split; [|split]]].
    + exists []. by rewrite app_nil_r.
    + done.
    + lia.
    + done.
    + destruct (Z.ltb_spec 0 max_urls); [lia|done].
  - split; [|split; [|split; [|split]]].
    + exists []. by rewrite app_nil_r.
    + done.
    + lia.
    + done.
    + destruct (Z.ltb_spec 0 max_urls); [lia|done].
Qed.

(** ** The events of a batch *)

Lemma scrape_log (self : Self) (net : network) (product : bag) (log : list event) :
  (scrape_product_attributes self net product log).2 = log ++ request_of product.
Proof.
  unfold scrape_product_attributes, request_of.
  destruct (Str.truthy _); cbn [negb].
  - destruct (net log _); [done|]. by destruct (run_steps _ _) as [a [e|]].
  - cbn. by rewrite app_nil_r.
Qed.

Lemma process_from_log (self : Self) (net : network) (delay_ms : Z)
    (products : list bag) :
  forall (total i : nat) (all_attributes : list bag) (log : list event),
    total = i + length products ->
    (process_from self net delay_ms total i products all_attributes log).2 =
    log ++ batch_events delay_ms products.
Proof.
  induction products as [|product products IH];
    intros total i all_attributes log Htotal.
  - cbn. by rewrite app_nil_r.
  - cbn [process_from].
    pose proof (scrape_log self net product log) as Hlog.
    destruct (scrape_product_attributes self net product log) as [attributes log1].
    cbn [snd] in Hlog. subst log1.
    rewrite IH by (cbn [length] in Htotal; lia).
    destruct products as [|product' products].
    + cbn [length] in Htotal.
      destruct (Nat.ltb_spec i (total - 1)); [lia|].
      cbn. by rewrite app_nil_r.
    + cbn [length] in Htotal.
      destruct (Nat.ltb_spec i (total - 1)); [|lia].
      cbn [batch_events]. by rewrite <- !app_assoc.
Qed.

(** X9.  The events of a batch are, product after product, the request
    of the product (none when it has no url) and, between two consecutive
    products, one pause of the configured delay: there is no pause after
    the last product, so a batch of [n] products pauses [n - 1] times. *)
Theorem batch_pauses_between_products
    (self : Self) (net : network) (delay_ms max_urls : Z) (products : list bag) :
  let kept := apply_limit max_urls products in
  let log := (process_products self net delay_ms max_urls products).2 in
  log = batch_events delay_ms kept /\
  List.filter (fun ev => match ev with EvSleep _ => true | _ => false end) log =
    repeat (EvSleep delay_ms) (length kept - 1).
Proof.
  intros kept log.
  assert (Hlog : log = batch_events delay_ms kept).
  { subst log. unfold process_products. fold kept.
    by rewrite process_from_log. }
  split; [done|]. rewrite Hlog. clear Hlog log.
  induction kept as [|p [|p' kept'] IH]; [done| |].
  - cbn. unfold request_of. by destruct (Str.truthy _).
  - change (batch_events delay_ms (p :: p' :: kept'))
      with (request_of p ++ EvSleep delay_ms :: batch_events delay_ms (p' :: kept')).
    rewrite List.filter_app.
    replace (List.filter _ (request_of p)) with (@nil event)
      by (unfold request_of; by destruct (Str.truthy _)).
    set (f := fun ev => match ev with EvSleep _ => true | _ => false end) in *.
    change (List.filter f (EvSleep delay_ms :: batch_events delay_ms (p' :: kept')))
      with (EvSleep delay_ms :: List.filter f (batch_events delay_ms (p' :: kept'))).
    rewrite IH. cbn [app length Nat.sub]. by rewrite Nat.sub_0_r.
Qed.

(** ** Column order *)

Lemma is_in_In (col : string) (cols : list string) :
  is_in col cols = true <-> In col cols.
Proof.
  unfold is_in. rewrite existsb_exists. split.
  - intros (x & Hx & Heq). apply String.eqb_eq in Heq. by subst.
  - intros Hin. exists col. split; [done|]. apply String.eqb_refl.
Qed.

Lemma column_order_parts (columns : list string) :
  column_order columns =
  List.filter (fun col => is_in col columns) priority_cols ++
  List.filter (fun col => negb (is_in col priority_cols) &&
                          negb (String.eqb col "error")) columns ++
  (if is_in "error" columns then ["error"] else []).
Proof.
  unfold column_order.
  set (other := List.filter _ columns).
  assert (Hother : List.filter (fun col => is_in col columns) other = other).
  { apply forallb_filter_id. apply forallb_forall. intros x Hx.
    apply filter_In in Hx as [Hx _]. by apply is_in_In. }
  destruct (is_in "error" columns) eqn:Herr.
  - rewrite !List.filter_app, Hother. cbn [List.filter]. by rewrite Herr.
  - rewrite !List.filter_app, Hother. by rewrite app_nil_r.
Qed.

Lemma column_order_In (columns : list string) (col : string) :
  In col (column_order columns) <-> In col columns.
Proof.
  rewrite column_order_parts, !in_app_iff, !filter_In. split.
  - intros [[_ Hin]|[[Hin _]|Herr]]; [by apply is_in_In|done|].
    destruct (is_in "error" columns) eqn:He; [|done].
    destruct Herr as [<-|[]]. by apply is_in_In.
  - intros Hin. destruct (is_in col priority_cols) eqn:Hp.
    + left. split; [by apply is_in_In|by apply is_in_In].
    + destruct (String.eqb_spec col "error") as [->|Hne].
      * right. right. apply is_in_In in Hin. rewrite Hin. by left.
      * right. left. split; [done|]. apply andb_true_iff. split.
        -- done.
        -- by destruct (String.eqb_spec col "error").
Qed.

Lemma column_order_NoDup (columns : list string) :
  List.NoDup columns -> List.NoDup (column_order columns).
Proof.
  intros Hnd. rewrite column_order_parts.
  apply NoDup_ListNoDup. apply NoDup_app. split; [|split].
  - apply NoDup_ListNoDup, List.NoDup_filter. unfold priority_cols.
    apply NoDup_ListNoDup. repeat (apply NoDup_cons; split; [set_solver|]).
    apply NoDup_nil_2.
  - intros x Hx Hx'. apply list_elem_of_In in Hx, Hx'.
    apply filter_In in Hx as [Hx _]. apply in_app_iff in Hx' as [Hx'|Hx'].
    + apply filter_In in Hx' as [_ Hx']. apply andb_true_iff in Hx' as [Hx' _].
      apply negb_true_iff in Hx'. apply is_in_In in Hx. congruence.
    + destruct (is_in "error" columns); [|done].
      destruct Hx' as [<-|[]]. by destruct Hx as [?|[?|[?|[]]]].
  - apply NoDup_app. split; [|split].
    + by apply NoDup_ListNoDup, List.NoDup_filter.
    + intros x Hx Hx'. apply list_elem_of_In in Hx, Hx'.
      apply filter_In in Hx as [_ Hx]. apply andb_true_iff in Hx as [_ Hx].
      apply negb_true_iff in Hx.
      destruct (is_in "error" columns); [|done].
      destruct Hx' as [<-|[]]. by rewrite String.eqb_refl in Hx.
    + destruct (is_in "error" columns); [|apply NoDup_nil_2].
      apply NoDup_singleton.
Qed.

(** X10.  For columns without repetition, the column order computed by
    [main] is a rearrangement of the columns: none is lost, none is added,
    none is repeated.  When there is an [error] column it comes last, and
    the columns among [id], [title], [url] come first, in that order,
    before all others. *)
Theorem column_order_is_a_rearrangement (columns : list string) :
  List.NoDup columns ->
  Permutation (column_order columns) columns /\
  (In "error" columns -> last (column_order columns) = Some "error") /\
  (exists others,
     column_order columns =
     List.filter (fun col => is_in col columns) ["id"; "title"; "url"] ++ others /\
     forall col, In col others -> ~ In col ["id"; "title"; "url"]).
Proof.
  intros Hnd. split; [|split].
  - apply NoDup_Permutation.
    + apply NoDup_ListNoDup. by apply column_order_NoDup.
    + by apply NoDup_ListNoDup.
    + intros x. rewrite !list_elem_of_In. apply column_order_In.
  - intros Herr. rewrite column_order_parts.
    apply is_in_In in Herr. rewrite Herr.
    by rewrite !app_assoc, last_snoc.
  - eexists. split; [apply column_order_parts|].
    intros col Hcol Hpri. apply in_app_iff in Hcol as [Hcol|Hcol].
    + apply filter_In in Hcol as [_ Hcol]. apply andb_true_iff in Hcol as [Hcol _].
      apply negb_true_iff in Hcol. apply (is_in_In col priority_cols) in Hpri.
      congruence.
    + destruct (is_in "error" columns); [|done].
      destruct Hcol as [<-|[]]. by destruct Hpri as [?|[?|[?|[]]]].
Qed.

(** ** The matcher: what a pattern reads *)

Module ReadFacts.
Import Str Re Patterns ReFacts.

Section Reads.
Context {R : Type} (ic : bool).

Lemma star_reads (a : atom) (k : cursor -> option R) bef p s cs x :
  star ic a k bef p s cs = Some x ->
  exists w s' bef',
    s = w ++ s' /\ forallb (atom_match ic a) w = true /\
    k (Cursor bef' (p + length w) s' cs) = Some x.
Proof.
  revert bef p. induction s as [|c s IH]; intros bef p; simpl.
  - intros Hk. exists [], [], bef. by rewrite Nat.add_0_r.
  - destruct (atom_match ic a c) eqn:Hc.
    + destruct (star ic a k (Some c) (S p) s cs) eqn:Hs.
      * intros [= ->]. apply IH in Hs as (w & s' & bef' & -> & Hw & Hk).
        exists (c :: w), s', bef'. simpl. rewrite Hc, Hw.
        by rewrite <- Nat.add_succ_comm.
      * intros Hk. exists [], (c :: s), bef. by rewrite Nat.add_0_r.
    + intros Hk. exists [], (c :: s), bef. by rewrite Nat.add_0_r.
Qed.

Lemma plus_reads (a : atom) (cur : cursor) (k : cursor -> option R) x :
  run ic (Plus a) cur k = Some x ->
  reads (fun w => w <> [] /\ forallb (atom_match ic a) w = true) cur k x.
Proof.
  simpl. destruct (rest cur) as [|c s] eqn:Hrest; [done|].
  destruct (atom_match ic a c) eqn:Hc; [|done].
  intros Hs. apply star_reads in Hs as (w & s' & bef' & -> & Hw & Hk).
  exists (c :: w), s', bef'. rewrite Hrest. simpl. rewrite Hc, Hw.
  by rewrite <- Nat.add_succ_comm.
Qed.
End Reads.



Lemma label_match (ic : bool) (c : ascii) :
  atom_match ic (Class [CRange "A" "Z"; CRange "a" "z"; CSpace; CChar "-"]) c =
  label_char c.
Proof. destruct ic, c as [[] [] [] [] [] [] [] []]; reflexivity. Qed.

Lemma forallb_ext_eq {A} (f g : A -> bool) (l : list A) :
  (forall x, f x = g x) -> forallb f l = forallb g l.
Proof. intros H. induction l as [|x l IH]; simpl; [done|]. by rewrite H, IH. Qed.



(** [[A-Za-z\s\-]+] reads a non-empty run of letters, blanks and hyphens. *)
Lemma word_run_reads {R} ic (cur : cursor) (k : cursor -> option R) x :
  run ic word_run cur k = Some x ->
  reads (fun w => w <> [] /\ forallb label_char w = true) cur k x.
Proof.
  intros H. apply plus_reads in H as (w & s' & bef' & Hr & [Hne Hw] & Hk).
  exists w, s', bef'. split; [done|]. split; [|done]. split; [done|].
  by rewrite <- (forallb_ext_eq _ _ w (label_match ic)).
Qed.

Section GroupTexts.
Context {R : Type} (ic : bool) (body : regex) (P : list ascii -> Prop).
Hypothesis body_reads :
  forall cur (k : cursor -> option R) x,
    run ic body cur k = Some x -> reads P cur k x.

(** When every group has a body that reads texts with [P], every group
    text has [P]. *)
Lemma run_group_texts (r : regex) :
  groups_are body r ->
  forall cur (k : cursor -> option R) x,
    run ic r cur k = Some x ->
    exists cur', k cur' = Some x /\
      (Forall (fun nt => P nt.2) (caps cur) -> Forall (fun nt => P nt.2) (caps cur')).
Proof.
  induction r as [|a|r1 IH1 r2 IH2|r1 IH1 r2 IH2|r1 IH1|a|a|a|m r1 IH1| | |];
    intros Hg cur k x; simpl.
  - eauto.
  - destruct (rest cur) as [|c s]; [done|].
    destruct (atom_match ic a c); [|done]. eauto.
  - destruct Hg as [Hg1 Hg2]. intros H.
    apply (IH1 Hg1) in H as (cur1 & H & Hc1).
    apply (IH2 Hg2) in H as (cur2 & H & Hc2). eauto.
  - destruct Hg as [Hg1 Hg2]. destruct (run ic r1 cur k) eqn:H1.
    + intros [= ->]. by apply (IH1 Hg1) in H1.
    + intros H. by apply (IH2 Hg2) in H.
  - destruct (run ic r1 cur k) eqn:H1.
    + intros [= ->]. by apply (IH1 Hg) in H1.
    + eauto.
  - intros H. apply star_inv in H as (cur' & H & Hc). exists cur'. by rewrite Hc.
  - destruct (rest cur) as [|c s]; [done|].
    destruct (atom_match ic a c); [|done].
    intros H. apply star_inv in H as (cur' & H & Hc). exists cur'. by rewrite Hc.
  - intros H. apply star_lazy_inv in H as (cur' & H & Hc). exists cur'. by rewrite Hc.
  - simpl in Hg. subst r1. intros H.
    apply body_reads in H as (w & s' & bef' & Hr & Hw & Hk).
    eexists. split; [exact Hk|]. unfold capture. cbn [caps pos rest].
    intros Hall. constructor; [|done]. cbn [snd].
    replace (pos cur + length w - pos cur) with (length w) by lia.
    by rewrite Hr, take_app_length.
  - destruct (Nat.eqb (pos cur) 0); [|done]. eauto.
  - destruct (rest cur) as [|c [|c' s]]; [| |done]; [eauto|].
    destruct (N.eqb (code c) 10); [|done]. eauto.
  - destruct (at_boundary cur); [|done]. eauto.
Qed.

End GroupTexts.

Lemma search_from_group_texts ic (body : regex) (P : list ascii -> Prop)
    (r : regex) bef p s m :
  (forall cur (k : cursor -> option rmatch) x,
     run ic body cur k = Some x -> reads P cur k x) ->
  groups_are body r -> search_from ic r bef p s = Some m ->
  Forall (fun nt => P nt.2) (m_caps m).
Proof.
  intros Hbody Hg. revert bef p. induction s as [|c s IH]; intros bef p; simpl.
  - destruct (run _ _ _ _) eqn:Hrun; [|done]. intros [= ->].
    apply (run_group_texts ic body P Hbody r Hg) in Hrun as (cur' & [= <-] & Hc).
    by apply Hc.
  - destruct (run _ _ _ _) eqn:Hrun; [|apply IH]. intros [= ->].
    apply (run_group_texts ic body P Hbody r Hg) in Hrun as (cur' & [= <-] & Hc).
    by apply Hc.
Qed.

Lemma lookup_cap_In (n : nat) (cs : list (nat * list ascii)) (g : string) :
  lookup_cap n cs = Some g -> exists t, In (n, t) cs /\ g = of_chars t.
Proof.
  induction cs as [|[i t] cs IH]; simpl; [done|].
  destruct (Nat.eqb_spec i n) as [->|Hne].
  - intros [= <-]. eauto.
  - intros H. destruct (IH H) as (t' & ? & ?). eauto.
Qed.

(** The groups of a match of a pattern whose groups read texts with [P]. *)
Lemma group_text (body : regex) (P : list ascii -> Prop) (r : regex)
    (s : string) (m : rmatch) (n : nat) (g : string) :
  (forall cur (k : cursor -> option rmatch) x,
     run true body cur k = Some x -> reads P cur k x) ->
  groups_are body r -> search true r s = Some m -> group n m = Some g ->
  P (chars g).
Proof.
  intros Hbody Hg Hs Hn.
  pose proof (search_from_group_texts true body P r _ _ _ m Hbody Hg Hs) as Hall.
  apply lookup_cap_In in Hn as (t & Hin & ->).
  rewrite CaseFacts.chars_of_chars.
  rewrite Forall_forall in Hall. apply list_elem_of_In in Hin.
  exact (Hall _ Hin).
Qed.


End ReadFacts.

(** ** Extractors: what they return *)

Section ExtractorFacts.
Import Str Re Patterns ReFacts WordFacts CaseFacts StripFacts ReadFacts.

Lemma search_from_text ic r bef p s m :
  search_from ic r bef p s = Some m -> exists pre post, s = pre ++ m_text m ++ post.
Proof.
  revert bef p. induction s as [|c s IH]; intros bef p; simpl.
  - destruct (run _ _ _ _) eqn:Hrun; [|done]. intros [= ->].
    apply (run_captures ic 0) in Hrun as (cur' & [= <-] & _). simpl.
    exists [], []. by destruct (pos cur' - p).
  - destruct (run _ _ _ _) eqn:Hrun.
    + intros [= ->].
      apply (run_captures ic 0) in Hrun as (cur' & [= <-] & _). simpl.
      exists [], (skipn (pos cur' - p) (c :: s)). cbn [app].
      by rewrite firstn_skipn.
    + intros H. apply IH in H as (pre & post & ->). by exists (c :: pre), post.
Qed.

Lemma group0_substring ic r s m :
  search ic r s = Some m -> is_substring (group0 m) s.
Proof.
  intros H. apply search_from_text in H as (pre & post & H).
  exists pre, post. unfold group0. by rewrite chars_of_chars.
Qed.

Lemma strip_substring (s : string) : is_substring (strip s) s.
Proof.
  destruct (strip_chars_infix (chars s)) as (pre & post & H).
  exists pre, post. unfold strip. by rewrite chars_of_chars.
Qed.

Lemma is_substring_trans (a b c : string) :
  is_substring a b -> is_substring b c -> is_substring a c.
Proof.
  intros (p1 & q1 & H1) (p2 & q2 & H2). exists (p2 ++ p1), (q1 ++ q2).
  rewrite H2, H1. by rewrite <- !app_assoc.
Qed.

(** X14.  What the weight extractor returns is a piece of the text it
    was given, and it is trimmed. *)
Theorem extract_weight_is_trimmed_substring (text w : string) :
  extract_weight text = Some w -> is_substring w text /\ strip w = w.
Proof.
  unfold extract_weight.
  destruct (first_match true weight_patterns text) as [m|] eqn:Hm; [|done].
  intros [= <-]. apply first_match_In in Hm as (p & _ & Hs). split.
  - eapply is_substring_trans; [apply strip_substring|]. by eapply group0_substring.
  - apply strip_idem.
Qed.

(** X11.  The colour extractor never raises and returns either nothing
    or a capitalised colour of the vocabulary; it does not look at the
    parsed document it is given; and when it returns nothing, no colour of
    the vocabulary occurs as a whole word in the lowered title and text. *)
Theorem extract_colour_closed_vocabulary (text title : string) (soup soup' : Soup) :
  (extract_colour text soup title = inr None \/
   exists colour, In colour colours /\
     extract_colour text soup title = inr (Some (capitalize colour))) /\
  extract_colour text soup title = extract_colour text soup' title /\
  (extract_colour text soup title = inr None ->
   forall colour, In colour colours ->
     ~ occurs_as_whole_word colour (lower (search_text title text))).
Proof.
  split; [apply extract_colour_ok|]. split; [done|].
  intros Hnone colour Hin Hocc. unfold extract_colour in Hnone.
  destruct (labelled_colour _ _) as [e|[c|]]; [done|done|].
  destruct (rgb_colour text); [done|].
  destruct (whole_word_colour false _) eqn:Hfind; [done|].
  unfold whole_word_colour in Hfind.
  apply (find_none _ _ Hfind) in Hin.
  apply matches_whole_word in Hocc. congruence.
Qed.

Lemma filter_sublist {A} (f : A -> bool) (l : list A) : sublist (List.filter f l) l.
Proof.
  induction l as [|x l IH]; simpl; [constructor|].
  destruct (f x); by constructor.
Qed.

Lemma first_group_stripped_None ps s :
  first_match true ps s = None -> first_group_stripped ps s = None.
Proof. unfold first_group_stripped. by intros ->. Qed.

(** A sublist of a duplicate-free list is fixed by its members. *)
Lemma sublist_members_unique {A} (l a b : list A) :
  List.NoDup l -> sublist a l -> sublist b l ->
  (forall x, In x a <-> In x b) -> a = b.
Proof.
  intros Hnd. revert a b. induction Hnd as [|x l Hx Hnd IH]; intros a b Ha Hb Hab.
  - apply sublist_nil_r in Ha, Hb. by subst.
  - assert (Hl : forall c, sublist c l -> ~ In x c).
    { intros c Hc Hin. apply Hx. apply list_elem_of_In.
      eapply elem_of_submseteq; [by apply list_elem_of_In|].
      by apply sublist_submseteq. }
    apply sublist_cons_r in Ha as [Ha|(a' & -> & Ha)];
      apply sublist_cons_r in Hb as [Hb|(b' & -> & Hb)].
    + by apply IH.
    + exfalso. apply (Hl a Ha). apply Hab. by left.
    + exfalso. apply (Hl b Hb). apply Hab. by left.
    + f_equal. apply IH; [done|done|]. intros y. split; intros Hy.
      * destruct (proj1 (Hab y) (or_intror Hy)) as [->|?]; [|done].
        by destruct (Hl a' Ha).
      * destruct (proj2 (Hab y) (or_intror Hy)) as [->|?]; [|done].
        by destruct (Hl b' Hb).
Qed.

Lemma materials_NoDup : List.NoDup materials.
Proof.
  apply NoDup_ListNoDup.
  refine (bool_decide_unpack (base.NoDup materials) _). by vm_compute.
Qed.

Lemma material_patterns_capture :
  Forall (fun p => always_captures 1 p = true) material_patterns.
Proof. repeat constructor. Qed.

(** X12.  The material extractor never raises.  When a labelled pattern
    matches, it returns group 1 of the first match, trimmed.  When none
    matches, let [occurring] be the materials of the vocabulary that occur
    (lowered) as whole words in the lowered text, in the order of the
    vocabulary; there is exactly one such list.  The extractor returns
    nothing when [occurring] is empty, and otherwise its first three
    members (all of them when there are fewer) joined by a comma and a
    blank. *)
Theorem extract_material_vocabulary_fallback (text : string) :
  (exists o, extract_material text = inr o) /\
  (forall m, first_match true material_patterns text = Some m ->
     exists g, group 1 m = Some g /\ extract_material text = inr (Some (strip g))) /\
  (first_match true material_patterns text = None ->
   exists occurring,
     sublist occurring materials /\
     (forall m, In m occurring <->
        In m materials /\ occurs_as_whole_word (lower m) (lower text)) /\
     (forall l, sublist l materials ->
        (forall m, In m l <->
           In m materials /\ occurs_as_whole_word (lower m) (lower text)) ->
        l = occurring) /\
     extract_material text =
       inr (match occurring with
            | [] => None
            | _ => Some (join ", " (firstn 3 occurring))
            end)).
Proof.
  split; [apply extract_material_ok|]. split.
  - intros m Hm. unfold extract_material, first_group_stripped. rewrite Hm.
    apply first_match_In in Hm as (p & Hp & Hs).
    pose proof (proj1 (List.Forall_forall _ _) material_patterns_capture p Hp) as Hcap.
    destruct (search_captures 1 true p text m Hcap Hs) as [g Hg].
    exists g. by rewrite Hg.
  - intros Hnone. unfold extract_material, first_group_stripped. rewrite Hnone.
    set (f := fun material => matches false (whole_word (lower material)) (lower text)).
    assert (Hmem : forall m, In m (List.filter f materials) <->
              In m materials /\ occurs_as_whole_word (lower m) (lower text)).
    { intros m. rewrite filter_In. unfold f. by rewrite matches_whole_word. }
    exists (List.filter f materials). split; [apply filter_sublist|].
    split; [exact Hmem|]. split.
    + intros l Hl Hmem'.
      apply (sublist_members_unique materials); [apply materials_NoDup|done| |].
      * apply filter_sublist.
      * intros m. by rewrite Hmem, Hmem'.
    + by destruct (List.filter f materials).
Qed.

Lemma pattern_label_text (text : string) (m : rmatch) :
  search true pattern_pattern text = Some m ->
  exists g,
    group 1 m = Some g /\
    g <> "" /\ forallb label_char (chars g) = true.
Proof.
  intros Hm.
  destruct (search_captures 1 true pattern_pattern text m eq_refl Hm) as [g Hg].
  exists g. split; [done|].
  assert (Hgr : groups_are word_run pattern_pattern) by (cbn; tauto).
  destruct (group_text word_run
              (fun w => w <> [] /\ forallb label_char w = true)
              pattern_pattern text m 1 g
              (fun cur k x => word_run_reads true cur k x) Hgr Hm Hg) as [Hne Hall].
  split; [|done]. intros ->. by apply Hne.
Qed.

(** X13.  The pattern extractor never raises.  When the label pattern
    matches, it returns group 1 of the match, trimmed, whether or not it is
    in the vocabulary; that group is a non-empty run of letters, blanks
    and hyphens.  Without a label it returns nothing exactly when no
    pattern name of the vocabulary occurs as a whole word in the lowered
    text, and otherwise the capitalised first such name in the order of
    the vocabulary. *)
Theorem extract_pattern_label_then_vocabulary (text : string) :
  (exists o, extract_pattern text = inr o) /\
  (forall m, search true pattern_pattern text = Some m ->
     exists g,
       group 1 m = Some g /\
       g <> "" /\ forallb label_char (chars g) = true /\
       extract_pattern text = inr (Some (strip g))) /\
  (search true pattern_pattern text = None ->
   (extract_pattern text = inr None <->
    forall w, In w patterns_list -> ~ occurs_as_whole_word w (lower text)) /\
   forall earlier w later,
     patterns_list = earlier ++ w :: later ->
     occurs_as_whole_word w (lower text) ->
     (forall v, In v earlier -> ~ occurs_as_whole_word v (lower text)) ->
     extract_pattern text = inr (Some (capitalize w))).
Proof.
  split; [apply extract_pattern_ok|]. split.
  - intros m Hm. destruct (pattern_label_text text m Hm) as (g & Hg & Hne & Hall).
    exists g. split; [done|]. split; [done|]. split; [done|].
    unfold extract_pattern, first_group_stripped. cbn [first_match].
    by rewrite Hm, Hg.
  - intros Hnone. unfold extract_pattern, first_group_stripped. cbn [first_match].
    rewrite Hnone. split.
    + destruct (find _ patterns_list) as [w|] eqn:Hfind.
      * split; [done|]. intros Hall. exfalso.
        apply find_some in Hfind as [Hin Hm].
        apply matches_whole_word in Hm. by apply (Hall w).
      * split; [|done]. intros _ w Hin Hocc.
        apply (find_none _ _ Hfind) in Hin.
        apply matches_whole_word in Hocc. congruence.
    + intros earlier w later Hsplit Hocc Hearlier. rewrite Hsplit.
      rewrite find_first; [done| |by apply matches_whole_word].
      intros v Hv. specialize (Hearlier v Hv).
      destruct (matches false (whole_word v) (lower text)) eqn:Hm; [|done].
      by apply matches_whole_word in Hm.
Qed.

Lemma first_identifier_skip (skipped : list json_doc) (rest : list json_doc) :
  Forall gives_no_identifier skipped ->
  first_identifier (skipped ++ rest) = first_identifier rest.
Proof.
  induction 1 as [|doc skipped Hdoc _ IH]; [done|]. cbn [app first_identifier].
  replace (ld_json_identifier doc) with (@None string); [done|].
  destruct doc as [| |data]; [done|done|]. destruct Hdoc as (H1 & H2 & H3).
  cbn. by rewrite H1, H2, H3.
Qed.

(** X15.  The identifier extractor never raises.  When a text pattern
    matches, the embedded scripts are not looked at.  Otherwise scripts
    that do not parse, are no dict, or have none of [gtin], [gtin13],
    [sku] are skipped, and the first other script decides, by [gtin],
    else [gtin13], else [sku]; when every script is skipped the result is
    nothing. *)
Theorem extract_gtin_skips_unusable_scripts (text : string) (soup : Soup) :
  (exists o, extract_gtin text soup = inr o) /\
  (forall m soup', first_match true gtin_patterns text = Some m ->
     extract_gtin text soup = extract_gtin text soup') /\
  (first_match true gtin_patterns text = None ->
   (Forall gives_no_identifier (find_all_ld_json soup) ->
    extract_gtin text soup = inr None) /\
   forall skipped data rest,
     find_all_ld_json soup = skipped ++ JsonDict data :: rest ->
     Forall gives_no_identifier skipped ->
     ~ gives_no_identifier (JsonDict data) ->
     extract_gtin text soup =
     inr (match dict_get "gtin" data with
          | Some v => Some v
          | None =>
              match dict_get "gtin13" data with
              | Some v => Some v
              | None => dict_get "sku" data
              end
          end)).
Proof.
  split; [|split].
  - unfold extract_gtin.
    destruct (first_group_stripped_ok gtin_patterns text) as [->|[g ->]];
      [repeat constructor|eauto|eauto].
  - intros m soup' Hm. unfold extract_gtin, first_group_stripped. rewrite Hm.
    by destruct (group 1 m).
  - intros Hnone. unfold extract_gtin.
    rewrite (first_group_stripped_None _ _ Hnone). split.
    + intros Hall. rewrite <- (app_nil_r (find_all_ld_json soup)).
      by rewrite first_identifier_skip.
    + intros skipped data rest -> Hskip Hdata.
      rewrite first_identifier_skip by done. cbn [first_identifier ld_json_identifier].
      destruct (dict_get "gtin" data) as [v|] eqn:H1; [done|].
      destruct (dict_get "gtin13" data) as [v|] eqn:H2; [done|].
      destruct (dict_get "sku" data) as [v|] eqn:H3; [done|].
      exfalso. apply Hdata. cbn. by rewrite H1, H2, H3.
Qed.











End ExtractorFacts.

(** ** The further properties on concrete inputs *)

Import MoreFixtures.

(** X1 tried on a concrete input. *)
Lemma namespaced_field_shadows_bare_field_witness :
  field_text "link" shadowed_item = None /\ accepted shadowed_item = false.
Proof.
  destruct (namespaced_field_shadows_bare_field "link" shadowed_item)
    as (H1 & _ & _ & H4).
  split.
  - apply (H1 (Elem "{http://base.google.com/ns/1.0}link" None []));
      [reflexivity|left; reflexivity].
  - apply (H4 (Elem "{http://base.google.com/ns/1.0}link" None []));
      [reflexivity|left; reflexivity].
Defined.

(** X2 tried on a concrete input. *)
Lemma products_are_trimmed_and_have_http_url_witness :
  is_item_record first_product.
Proof.
  apply (products_are_trimmed_and_have_http_url (fun _ => inr feed_two) "<rss/>").
  left. vm_compute. reflexivity.
Defined.

(** X3 tried on a concrete input. *)
Lemma parsed_product_is_requested_once_witness :
  exists url,
    first_product !! "url" = Some url /\
    (forall self : Self,
       (scrape_product_attributes self net_timeout first_product []).2 =
       [] ++ [EvGet url]) /\
    (scrape_product_attributes FeedAttributeScraper net_timeout first_product []).1
      !! "url" = Some url /\
    (scrape_product_attributes FeedAttributeScraper net_timeout first_product []).1
      !! "error" <> Some "No URL provided".
Proof.
  apply (parsed_product_is_requested_once (fun _ => inr feed_two) "<rss/>").
  left. vm_compute. reflexivity.
Defined.

(** X4 tried on a concrete input. *)
Lemma base_fields_are_carried_through_witness :
  (scrape_product_attributes FeedAttributeScraper net_table first_product []).1 !! "id"
  = Some "1".
Proof.
  rewrite (base_fields_are_carried_through net_table first_product [] "id").
  - reflexivity.
  - apply (bool_decide_unpack _). vm_compute. exact I.
Defined.

(** X6 tried on a concrete input. *)
Lemma fetched_bag_by_key_witness :
  (scrape_product_attributes FeedAttributeScraper net_table ScenarioA.product []).1
    !! "color" = Some "Blue" /\
  (scrape_product_attributes FeedAttributeScraper net_table ScenarioA.product []).1
    !! "colour" = Some "Navy".
Proof.
  pose proof (fetched_bag_by_key net_table ScenarioA.product [] soup_with_table) as H.
  cbv zeta in H. destruct (H eq_refl eq_refl) as (Hkey & _ & Hcolor). split.
  - rewrite Hcolor. reflexivity.
  - rewrite (Hkey "colour"). reflexivity.
Defined.

(** X7 tried on a concrete input. *)
Lemma table_scan_reads_two_cells_witness :
  extract_table_data soup_with_wide_table = extract_table_data soup_with_table.
Proof.
  apply (proj1 table_scan_reads_two_cells). reflexivity.
Defined.

(** X8 tried on a concrete input. *)
Lemma apply_limit_keeps_a_prefix_witness :
  length (apply_limit 2 [ScenarioA.product; second_product; first_product]) = 2 /\
  apply_limit (-1) [ScenarioA.product; second_product] =
    [ScenarioA.product; second_product].
Proof.
  split.
  - destruct (apply_limit_keeps_a_prefix 2
                [ScenarioA.product; second_product; first_product])
      as (_ & _ & Hlen & _).
    rewrite Hlen; [reflexivity|lia].
  - destruct (apply_limit_keeps_a_prefix (-1) [ScenarioA.product; second_product])
      as (_ & _ & _ & Hall & _).
    apply Hall. lia.
Defined.

(** X10 tried on a concrete input. *)
Lemma column_order_is_a_rearrangement_witness :
  last (column_order ["url"; "weight"; "error"; "id"; "color"]) = Some "error" /\
  Permutation (column_order ["url"; "weight"; "error"; "id"; "color"])
              ["url"; "weight"; "error"; "id"; "color"].
Proof.
  assert (Hnd : List.NoDup ["url"; "weight"; "error"; "id"; "color"]).
  { apply NoDup_ListNoDup, (bool_decide_unpack _). vm_compute. exact I. }
  destruct (column_order_is_a_rearrangement _ Hnd) as (Hperm & Hlast & _).
  split; [|exact Hperm]. apply Hlast. simpl. tauto.
Defined.

(** X11 tried on a concrete input. *)
Lemma extract_colour_closed_vocabulary_witness :
  ~ occurs_as_whole_word "red"
      (Str.lower (search_text "Scarf" "Covered in glitter")).
Proof.
  apply (proj2 (proj2 (extract_colour_closed_vocabulary "Covered in glitter" "Scarf"
                         ScenarioA.soup ScenarioA.soup))).
  - reflexivity.
  - simpl. tauto.
Defined.

(** X12 tried on a concrete input. *)
Lemma extract_material_vocabulary_fallback_witness :
  exists occurring,
    sublist occurring Patterns.materials /\
    (forall m, In m occurring <->
       In m Patterns.materials /\
       occurs_as_whole_word (Str.lower m)
         (Str.lower "A wood and GLASS table, steel legs, oak top")) /\
    (forall l, sublist l Patterns.materials ->
       (forall m, In m l <->
          In m Patterns.materials /\
          occurs_as_whole_word (Str.lower m)
            (Str.lower "A wood and GLASS table, steel legs, oak top")) ->
       l = occurring) /\
    extract_material "A wood and GLASS table, steel legs, oak top" =
      inr (match occurring with
           | [] => None
           | _ => Some (Str.join ", " (firstn 3 occurring))
           end).
Proof.
  apply (proj2 (proj2 (extract_material_vocabulary_fallback
                         "A wood and GLASS table, steel legs, oak top"))).
  reflexivity.
Defined.

(** X13 tried on a concrete input. *)
Lemma extract_pattern_label_then_vocabulary_witness :
  (exists m g,
     Re.search true Patterns.pattern_pattern "Pattern: Houndstooth. Plain lining."
       = Some m /\
     Re.group 1 m = Some g /\
     g <> "" /\ forallb label_char (Str.chars g) = true /\
     extract_pattern "Pattern: Houndstooth. Plain lining." = inr (Some (Str.strip g))) /\
  (extract_pattern "No motif here" = inr None <->
   forall w, In w Patterns.patterns_list ->
     ~ occurs_as_whole_word w (Str.lower "No motif here")).
Proof.
  split.
  - destruct (extract_pattern_label_then_vocabulary
                "Pattern: Houndstooth. Plain lining.") as (_ & Hlabel & _).
    destruct (Re.search true Patterns.pattern_pattern
                "Pattern: Houndstooth. Plain lining.") as [m|] eqn:Hm.
    + destruct (Hlabel m eq_refl) as (g & Hg). exists m, g. by split.
    + exfalso. vm_compute in Hm. discriminate Hm.
  - destruct (extract_pattern_label_then_vocabulary "No motif here")
      as (_ & _ & Hnone).
    apply Hnone. reflexivity.
Defined.

(** X14 tried on a concrete input. *)
Lemma extract_weight_is_trimmed_substring_witness :
  is_substring "Net: 5 lbs" "Parcel. Net: 5 lbs approx." /\
  Str.strip "Net: 5 lbs" = "Net: 5 lbs".
Proof.
  apply (extract_weight_is_trimmed_substring "Parcel. Net: 5 lbs approx.").
  reflexivity.
Defined.

(** X15 tried on a concrete input. *)
Lemma extract_gtin_skips_unusable_scripts_witness :
  extract_gtin "no code in the text" soup_with_scripts = inr (Some "4006381333931").
Proof.
  destruct (extract_gtin_skips_unusable_scripts "no code in the text"
              soup_with_scripts) as (_ & _ & Hscripts).
  destruct (Hscripts eq_refl) as (_ & Hfirst).
  apply (Hfirst [JsonRaises; JsonDict [("name", "Scarf")]]
                [("sku", "SC-1"); ("gtin13", "4006381333931")]
                [JsonDict [("gtin", "12345678")]]).
  - reflexivity.
  - repeat constructor.
  - intros (_ & H & _). discriminate H.
Defined.

